(** * Leap-frog Maxwell solver of [ex_4/ex04_Safin.ipynb]

    A shallow embedding of the notebook's two field updates
    ([update_E_vec], [update_B_vec]), of its time-iteration loop and of the
    set-up that precedes it, with the properties the specification states
    about them.

    Modelling choices.
    - A numpy [float] array of rank four is a [shape] and a flat row-major
      buffer, as numpy stores it.  Element access follows numpy's rule for an
      integer index [i] on an axis of extent [n]: [0 <= i < n] is taken as it
      is, [-n <= i < 0] stands for [i + n], any other index of the size of
      a machine word raises [IndexError].
    - The arithmetic of the array elements is a parameter ([Arith]): the
      program is embedded once, over any carrier with the operations it
      uses, and no law of arithmetic is assumed unless a statement says so.
      What is proved of the program in general therefore holds of it on
      numpy's [float64], which is the instance [float64]: IEEE 754 binary64
      with rounding to nearest even, [inf], [nan] and signed zeros, as the
      kernel's primitive floats implement it.  A division by zero raises
      nothing there (numpy only warns) and gives [inf] or [nan].  The
      instance [rational] is exact arithmetic, the idealisation in which the
      specification's algebraic properties are meant.
    - Arrays are Python objects: they live in a store and are passed by
      reference.  [np.zeros] allocates a fresh object, [a[...] = v] mutates
      the object in place.  A computation is a function from the store to an
      outcome (a value or a raised exception) and the store it leaves. *)

From Stdlib Require Import ZArith QArith Qcanon Lia Ring Floats.
From stdpp Require Import base numbers option list gmap.

Local Open Scope Z_scope.

(** ** The arithmetic of the array elements *)

(** The operations of the element type that the notebook uses: the constant
    0 ([np.zeros], [By_ana]), the four operations, the conversion of an
    integer ([np.linspace] counts its samples in the element type) and the
    test [x == 0] (in [np.linspace]). *)
Class Arith (F : Type) : Type := {
  fzero : F;
  fadd : F → F → F;
  fsub : F → F → F;
  fmul : F → F → F;
  fdiv : F → F → F;
  of_int : Z → F;
  is_zero : F → bool
}.

Global Hint Mode Arith ! : typeclass_instances.

Declare Scope arith_scope.
Delimit Scope arith_scope with A.
Notation "0" := fzero : arith_scope.
Infix "+" := fadd : arith_scope.
Infix "-" := fsub : arith_scope.
Infix "*" := fmul : arith_scope.
Infix "/" := fdiv : arith_scope.

(** ** Arrays *)

Module Nd.

(** [np.shape] of a rank-four array: the extents of axis 0 (the vector
    component) and of the three lattice axes. *)
Definition shape : Type := (nat * nat * nat * nat)%type.

(** Number of elements of an array of shape [s]. *)
Definition size (s : shape) : nat :=
  let '(n0, n1, n2, n3) := s in (n0 * n1 * n2 * n3)%nat.

Record ndarray (F : Type) : Type := mk { shp : shape; data : list F }.

Arguments mk {F} _ _.
Arguments shp {F} _.
Arguments data {F} _.

(** numpy's treatment of one integer index on an axis of extent [n];
    [None] is the index out of bounds.  This is the rule for an index that
    fits numpy's index type (a signed machine word); a Python integer
    beyond it is refused before the bounds are looked at, with another
    exception, and is outside the model.  The notebook indexes with loop
    counters and their predecessors only. *)
Definition norm_index (n : nat) (i : Z) : option nat :=
  if decide (0 ≤ i < Z.of_nat n) then Some (Z.to_nat i)
  else if decide (- Z.of_nat n ≤ i < 0) then Some (Z.to_nat (i + Z.of_nat n))
  else None.

(** Row-major position of the element [c, i, j, k]. *)
Definition offset (s : shape) (c i j k : nat) : nat :=
  let '(_, n1, n2, n3) := s in (((c * n1 + i) * n2 + j) * n3 + k)%nat.

Definition flat_index (s : shape) (idx : Z * Z * Z * Z) : option nat :=
  let '(n0, n1, n2, n3) := s in
  let '(c, i, j, k) := idx in
  c' ← norm_index n0 c;
  i' ← norm_index n1 i;
  j' ← norm_index n2 j;
  k' ← norm_index n3 k;
  Some (offset s c' i' j' k').

End Nd.

Import Nd.

(** ** The store and the computations over it *)

Definition loc : Type := nat.

(** The exceptions a computation can end with.  [IndexError] is numpy's;
    [InvalidRef] has no Python counterpart (a Python reference is always
    live) and only makes the store accessors total. *)
Inductive exn : Type := IndexError | InvalidRef.

Global Instance exn_eq_dec : EqDecision exn.
Proof. solve_decision. Defined.

Definition M (F A : Type) : Type :=
  gmap loc (ndarray F) → (exn + A) * gmap loc (ndarray F).

Global Instance M_ret {F} : MRet (M F) := λ A (a : A) σ, (inr a, σ).

Global Instance M_bind {F} : MBind (M F) := λ A B (k : A → M F B) (m : M F A) σ,
  match m σ with
  | (inl e, σ') => (inl e, σ')
  | (inr a, σ') => k a σ'
  end.

(** The exceptions of the set-up code: numpy's [ValueError] (a negative
    number of samples or a negative extent), or one of [exn]. *)
Inductive py_exn : Type := ValueError | Raised (e : exn).

(** The exception that an axis of the grid with fewer than two points ends
    the set-up with. *)
Definition axis_failure (n : Z) : py_exn :=
  if decide (n < -1) then ValueError else Raised IndexError.

Definition Py (F A : Type) : Type :=
  gmap loc (ndarray F) → (py_exn + A) * gmap loc (ndarray F).

Global Instance Py_ret {F} : MRet (Py F) := λ A (a : A) σ, (inr a, σ).

Global Instance Py_bind {F} : MBind (Py F) := λ A B (k : A → Py F B) (m : Py F A) σ,
  match m σ with
  | (inl e, σ') => (inl e, σ')
  | (inr a, σ') => k a σ'
  end.

(** A vector with one entry per direction ([h], [delta_n]). *)
Definition vec3 (F : Type) : Type := (F * F * F)%type.

(** [range(n)] *)
Definition range (n : Z) : list Z := Z.of_nat <$> seq 0 (Z.to_nat n).

(** Reduction of an integer index modulo the extent of its axis, with the
    result in [0, n). *)
Definition wrap (n : nat) (i : Z) : nat := Z.to_nat (i mod Z.of_nat n).

(** An index that fits numpy's index type on a 64-bit platform. *)
Definition index_sized (i : Z) : Prop := - 2 ^ 63 ≤ i < 2 ^ 63.

Global Instance index_sized_dec i : Decision (index_sized i).
Proof. unfold index_sized. apply _. Defined.

(** An array of shape [s] has room for the lattice of [n1 * n2 * n3]
    points: three components at least and, on every lattice axis, at least
    the extent the lattice asks for. *)
Definition room (n1 n2 n3 : nat) (s : shape) : Prop :=
  let '(a0, a1, a2, a3) := s in
  (3 ≤ a0 ∧ n1 ≤ a1 ∧ n2 ≤ a2 ∧ n3 ≤ a3)%nat.

Global Instance room_dec n1 n2 n3 s : Decision (room n1 n2 n3 s).
Proof. destruct s as [[[a0 a1] a2] a3]. unfold room. apply _. Defined.

(** The entry [c, i, j, k] is one that the loops over the lattice of
    [n1 * n2 * n3] points assign. *)
Definition assigned (n1 n2 n3 : nat) (c : nat) (i j k : Z) : Prop :=
  (c < 3)%nat ∧ 0 ≤ i < Z.of_nat n1 ∧ 0 ≤ j < Z.of_nat n2 ∧ 0 ≤ k < Z.of_nat n3.

Global Instance assigned_dec n1 n2 n3 c i j k : Decision (assigned n1 n2 n3 c i j k).
Proof. unfold assigned. apply _. Defined.

(** ** The two arithmetics *)

(** The conversion of an integer to [float64]; it is exact up to 2^53 in
    absolute value, far beyond the number of samples of a grid. *)
Definition float_of_Z (k : Z) : float :=
  match k with
  | Z0 => 0%float
  | Zpos _ => PrimFloat.of_uint63 (Uint63.of_Z k)
  | Zneg p => PrimFloat.opp (PrimFloat.of_uint63 (Uint63.of_Z (Zpos p)))
  end.

(** numpy's [float64]: IEEE 754 binary64. *)
Global Instance float64 : Arith float := {|
  fzero := 0%float;
  fadd := PrimFloat.add;
  fsub := PrimFloat.sub;
  fmul := PrimFloat.mul;
  fdiv := PrimFloat.div;
  of_int := float_of_Z;
  is_zero := λ x, PrimFloat.eqb x 0%float
|}.

(** Exact arithmetic on the rationals; the quotient by zero, which has no
    meaning there, is [Qc]'s 0. *)
Global Instance rational : Arith Qc := {|
  fzero := 0%Qc;
  fadd := Qcplus;
  fsub := Qcminus;
  fmul := Qcmult;
  fdiv := Qcdiv;
  of_int := λ k, Q2Qc (inject_Z k);
  is_zero := λ x, Qc_eq_bool x 0%Qc
|}.

(** A [float64] that is finite and has the sign bit clear. *)
Definition finite_nonneg (x : float) : bool :=
  match Prim2SF x with
  | S754_zero false | S754_finite false _ _ => true
  | _ => false
  end.

(** ** Sample fields and stores

    The fields on which the properties are tried at the end of the file. *)

(** In exact arithmetic: a field on the lattice of 1 x 1 x 2 points whose x
    component varies along the third axis, and the zero field on the same
    lattice. *)
Definition field_a : ndarray Qc := mk (3, 1, 1, 2)%nat [1; 0; 0; 0; 0; 0]%Qc.
Definition field_0 : ndarray Qc := mk (3, 1, 1, 2)%nat (replicate 6 0%Qc).

(** A store with [field_a] at location 0 and [field_0] at location 1. *)
Definition store_a0 : gmap loc (ndarray Qc) :=
  <[1%nat := field_0]> (<[0%nat := field_a]> ∅).

(** A field on the lattice of 2 x 2 x 2 points whose first entry is 7. *)
Definition field_b : ndarray Qc :=
  mk (3, 2, 2, 2)%nat (Q2Qc 7 :: replicate 23 0%Qc).

(** The zero field on the lattice of one point, and a store holding it at
    location 0 with the larger [field_b] at location 1. *)
Definition field_c : ndarray Qc := mk (3, 1, 1, 1)%nat (replicate 3 0%Qc).
Definition store_cb : gmap loc (ndarray Qc) :=
  <[1%nat := field_b]> (<[0%nat := field_c]> ∅).

(** In [float64], on the lattice of 1 x 2 x 2 points (the entries of a
    component are listed in the order (j, k) = (0, 0), (0, 1), (1, 0),
    (1, 1)): two fields with small entries, *)
Definition field_s : ndarray float :=
  mk (3, 1, 2, 2)%nat [1; 2; 3; 4; 5; 6; 7; 8; 9; 10; 11; 12]%float.
Definition field_t : ndarray float :=
  mk (3, 1, 2, 2)%nat [0.5; 1.5; 2.5; 4.5; 8; 7; 6; 4; 1; 3; 9; 27]%float.
Definition store_st : gmap loc (ndarray float) :=
  <[1%nat := field_t]> (<[0%nat := field_s]> ∅).

(** a field whose x component is 1 with a field whose y component falls
    from 1e16 to 0 along the third axis and whose z component falls from
    1e16 to 0 along the second, *)
Definition field_u : ndarray float :=
  mk (3, 1, 2, 2)%nat [1; 1; 1; 1; 0; 0; 0; 0; 0; 0; 0; 0]%float.
Definition field_w : ndarray float :=
  mk (3, 1, 2, 2)%nat [0; 0; 0; 0; 1e16; 0; 1e16; 0; 1e16; 1e16; 0; 0]%float.
Definition store_uw : gmap loc (ndarray float) :=
  <[1%nat := field_w]> (<[0%nat := field_u]> ∅).


(** and the zero field on the lattice of one point, twice. *)
Definition field_z : ndarray float := mk (3, 1, 1, 1)%nat (replicate 3 0%float).
Definition store_zz : gmap loc (ndarray float) :=
  <[1%nat := field_z]> (<[0%nat := field_z]> ∅).

(** * The program, for every arithmetic of the array elements *)

Section carrier.
Context {F : Type} {arith : Arith F}.
Local Abbreviation ndarray := (ndarray F).
Local Abbreviation M := (M F).
Local Abbreviation Py := (Py F).
Local Abbreviation vec3 := (vec3 F).

(** ** Array elements *)

(** A numpy array always owns exactly [size shp] elements. *)
Definition wf (a : ndarray) : Prop := length (data a) = size (shp a).

Global Instance wf_dec a : Decision (wf a).
Proof. unfold wf. apply _. Defined.

(** [a[c,i,j,k]]; [None] stands for [IndexError]. *)
Definition get (a : ndarray) (idx : Z * Z * Z * Z) : option F :=
  o ← flat_index (shp a) idx; data a !! o.

(** [a[c,i,j,k] = v], giving the array after the write; [None] stands for
    [IndexError].  The test on the length never fails on an array that is
    [wf]. *)
Definition set (a : ndarray) (idx : Z * Z * Z * Z) (v : F) : option ndarray :=
  o ← flat_index (shp a) idx;
  if decide (o < length (data a))%nat
  then Some (mk (shp a) (<[o := v]> (data a)))
  else None.

(** [np.zeros(s, dtype=float)]. *)
Definition zeros (s : shape) : ndarray :=
  mk s (replicate (size s) 0%A).

(** [np.shape(l)] *)
Definition np_shape (l : loc) : M shape := λ σ,
  match σ !! l with
  | Some a => (inr (shp a), σ)
  | None => (inl InvalidRef, σ)
  end.

(** [np.zeros(s, dtype=float)]: a new object. *)
Definition np_zeros (s : shape) : M loc := λ σ,
  let l := fresh (dom σ) in (inr l, <[l := zeros s]> σ).

(** [l[c,i,j,k]] *)
Definition getitem (l : loc) (idx : Z * Z * Z * Z) : M F := λ σ,
  match σ !! l with
  | Some a =>
      match get a idx with
      | Some v => (inr v, σ)
      | None => (inl IndexError, σ)
      end
  | None => (inl InvalidRef, σ)
  end.

(** [l[c,i,j,k] = v] *)
Definition setitem (l : loc) (idx : Z * Z * Z * Z) (v : F) : M unit := λ σ,
  match σ !! l with
  | Some a =>
      match set a idx v with
      | Some a' => (inr (), <[l := a']> σ)
      | None => (inl IndexError, σ)
      end
  | None => (inl InvalidRef, σ)
  end.

(** [for x in xs: body(x)] *)
Fixpoint for_each {A} (xs : list A) (body : A → M unit) : M unit :=
  match xs with
  | [] => mret ()
  | x :: xs' => body x ;; for_each xs' body
  end.

(** A [for] loop that rebinds variables: the loop-carried bindings are [s]. *)
Fixpoint for_each_st {A S} (xs : list A) (s : S) (body : A → S → M S) : M S :=
  match xs with
  | [] => mret s
  | x :: xs' => s' ← body x s; for_each_st xs' s' body
  end.

(** ** The program *)

(** [dt / h] on a numpy vector [h]: entrywise. *)
Definition scalar_div (dt : F) (h : vec3) : vec3 :=
  let '(h0, h1, h2) := h in ((dt / h0)%A, (dt / h1)%A, (dt / h2)%A).

(** The three assignments in the body of the loops of [update_E_vec], at
    the lattice point [i, j, k]. *)
Definition update_E_point (delta_n : vec3) (E_vec B_vec E_vec_new : loc)
    (i j k : Z) : M unit :=
  let '(d0, d1, d2) := delta_n in
  (e ← getitem E_vec (0, i, j, k);
   b1 ← getitem B_vec (2, i, j, k);
   b2 ← getitem B_vec (2, i, j - 1, k);
   b3 ← getitem B_vec (1, i, j, k);
   b4 ← getitem B_vec (1, i, j, k - 1);
   setitem E_vec_new (0, i, j, k) (e + (d1 * (b1 - b2) - d2 * (b3 - b4)))%A);;
  (e ← getitem E_vec (1, i, j, k);
   b1 ← getitem B_vec (0, i, j, k);
   b2 ← getitem B_vec (0, i, j, k - 1);
   b3 ← getitem B_vec (2, i, j, k);
   b4 ← getitem B_vec (2, i - 1, j, k);
   setitem E_vec_new (1, i, j, k) (e + (d2 * (b1 - b2) - d0 * (b3 - b4)))%A);;
  (e ← getitem E_vec (2, i, j, k);
   b1 ← getitem B_vec (1, i, j, k);
   b2 ← getitem B_vec (1, i - 1, j, k);
   b3 ← getitem B_vec (0, i, j, k);
   b4 ← getitem B_vec (0, i, j - 1, k);
   setitem E_vec_new (2, i, j, k) (e + (d0 * (b1 - b2) - d1 * (b3 - b4)))%A).

Definition update_E_vec (dt : F) (h : vec3) (N : Z * Z * Z)
    (E_vec B_vec : loc) : M loc :=
  let '(N_0, N_1, N_2) := N in
  s ← np_shape E_vec;
  E_vec_new ← np_zeros s;
  let delta_n := scalar_div dt h in
  for_each (range N_0) (λ i,
    for_each (range N_1) (λ j,
      for_each (range N_2) (λ k,
        update_E_point delta_n E_vec B_vec E_vec_new i j k)));;
  mret E_vec_new.

(** The three assignments in the body of the loops of [update_B_vec]. *)
Definition update_B_point (delta_n : vec3) (E_vec B_vec B_vec_new : loc)
    (i j k : Z) : M unit :=
  let '(d0, d1, d2) := delta_n in
  (b ← getitem B_vec (0, i, j, k);
   e1 ← getitem E_vec (2, i, j, k);
   e2 ← getitem E_vec (2, i, j - 1, k);
   e3 ← getitem E_vec (1, i, j, k);
   e4 ← getitem E_vec (1, i, j, k - 1);
   setitem B_vec_new (0, i, j, k) (b - (d1 * (e1 - e2) - d2 * (e3 - e4)))%A);;
  (b ← getitem B_vec (1, i, j, k);
   e1 ← getitem E_vec (0, i, j, k);
   e2 ← getitem E_vec (0, i, j, k - 1);
   e3 ← getitem E_vec (2, i, j, k);
   e4 ← getitem E_vec (2, i - 1, j, k);
   setitem B_vec_new (1, i, j, k) (b - (d2 * (e1 - e2) - d0 * (e3 - e4)))%A);;
  (b ← getitem B_vec (2, i, j, k);
   e1 ← getitem E_vec (1, i, j, k);
   e2 ← getitem E_vec (1, i - 1, j, k);
   e3 ← getitem E_vec (0, i, j, k);
   e4 ← getitem E_vec (0, i, j - 1, k);
   setitem B_vec_new (2, i, j, k) (b - (d0 * (e1 - e2) - d1 * (e3 - e4)))%A).

Definition update_B_vec (dt : F) (h : vec3) (N : Z * Z * Z)
    (E_vec B_vec : loc) : M loc :=
  let '(N_0, N_1, N_2) := N in
  s ← np_shape B_vec;
  B_vec_new ← np_zeros s;
  let delta_n := scalar_div dt h in
  for_each (range N_0) (λ i,
    for_each (range N_1) (λ j,
      for_each (range N_2) (λ k,
        update_B_point delta_n E_vec B_vec B_vec_new i j k)));;
  mret B_vec_new.

(** The time iteration of the notebook: [E_vec] and [B_vec] are rebound in
    every pass, the second call receives the [E_vec] bound by the first. *)
Definition time_iteration (dt : F) (h : vec3) (N : Z * Z * Z)
    (N_timesteps : Z) (E_vec B_vec : loc) : M (loc * loc) :=
  for_each_st (range N_timesteps) (E_vec, B_vec) (λ _ '(E_vec, B_vec),
    E_vec ← update_E_vec dt h N E_vec B_vec;
    B_vec ← update_B_vec dt h N E_vec B_vec;
    mret (E_vec, B_vec)).

(** ** The periodic lattice of the specification *)

(** The specification's field-grid access: component [c], lattice indices
    reduced modulo the extents before the lookup. *)
Definition periodic_get (a : ndarray) (c : nat) (i j k : Z) : F :=
  let '(_, n1, n2, n3) := shp a in
  default 0%A (data a !! offset (shp a) c (wrap n1 i) (wrap n2 j) (wrap n3 k)).

(** [a] is a field on the lattice of [n1 * n2 * n3] points. *)
Definition field_on (n1 n2 n3 : nat) (a : ndarray) : Prop :=
  wf a ∧ shp a = (3, n1, n2, n3)%nat.

Global Instance field_on_dec n1 n2 n3 a : Decision (field_on n1 n2 n3 a).
Proof. unfold field_on. apply _. Defined.


(** [a] is zero at every lattice point. *)
Definition zero_on (n1 n2 n3 : nat) (a : ndarray) : Prop :=
  ∀ (c : nat) (i j k : Z), (c < 3)%nat →
    0 ≤ i < Z.of_nat n1 → 0 ≤ j < Z.of_nat n2 → 0 ≤ k < Z.of_nat n3 →
    periodic_get a c i j k = 0%A.

(** The right-hand sides of the E-update as the specification writes them,
    [E + delta * (..) - delta * (..)], read from left to right as the
    notation of the language reads it: the second product is subtracted
    from the sum of [E] and the first. *)
Definition E_spec (d : vec3) (E B : ndarray) (i j k : Z) (c : nat) : F :=
  let '(d0, d1, d2) := d in
  match c with
  | 0%nat =>
      periodic_get E 0 i j k
      + d1 * (periodic_get B 2 i j k - periodic_get B 2 i (j - 1) k)
      - d2 * (periodic_get B 1 i j k - periodic_get B 1 i j (k - 1))
  | 1%nat =>
      periodic_get E 1 i j k
      + d2 * (periodic_get B 0 i j k - periodic_get B 0 i j (k - 1))
      - d0 * (periodic_get B 2 i j k - periodic_get B 2 (i - 1) j k)
  | _ =>
      periodic_get E 2 i j k
      + d0 * (periodic_get B 1 i j k - periodic_get B 1 (i - 1) j k)
      - d1 * (periodic_get B 0 i j k - periodic_get B 0 i (j - 1) k)
  end%A.

(** The right-hand sides of the B-update as the specification writes them,
    [B - delta * (..) + delta * (..)], read from left to right. *)
Definition B_spec (d : vec3) (E B : ndarray) (i j k : Z) (c : nat) : F :=
  let '(d0, d1, d2) := d in
  match c with
  | 0%nat =>
      periodic_get B 0 i j k
      - d1 * (periodic_get E 2 i j k - periodic_get E 2 i (j - 1) k)
      + d2 * (periodic_get E 1 i j k - periodic_get E 1 i j (k - 1))
  | 1%nat =>
      periodic_get B 1 i j k
      - d2 * (periodic_get E 0 i j k - periodic_get E 0 i j (k - 1))
      + d0 * (periodic_get E 2 i j k - periodic_get E 2 (i - 1) j k)
  | _ =>
      periodic_get B 2 i j k
      - d0 * (periodic_get E 1 i j k - periodic_get E 1 (i - 1) j k)
      + d1 * (periodic_get E 0 i j k - periodic_get E 0 i (j - 1) k)
  end%A.


(** The three factors [d] give zero when multiplied by zero, and zero plus
    or minus zero is zero. *)
Definition absorbs_zero (d : vec3) : Prop :=
  let '(d0, d1, d2) := d in
  (d0 * 0)%A = 0%A ∧ (d1 * 0)%A = 0%A ∧ (d2 * 0)%A = 0%A
  ∧ (0 + 0)%A = (0 : F)%A ∧ (0 - 0)%A = (0 : F)%A.

(** ** Notions used in the proofs *)

(** [runs m σ a σ']: from the store [σ], [m] returns [a] and leaves [σ']. *)
Definition runs {A} (m : M A) (σ : gmap loc ndarray) (a : A)
    (σ' : gmap loc ndarray) : Prop :=
  m σ = (inr a, σ').

(** [preserves J m]: whatever its outcome, [m] keeps the store in [J]. *)
Definition preserves {A} (J : gmap loc ndarray → Prop) (m : M A) : Prop :=
  ∀ σ, J σ → J (m σ).2.

(** [raises_index_only J m]: from a store in [J], [m] ends normally or with
    [IndexError]. *)
Definition raises_index_only {A} (J : gmap loc ndarray → Prop) (m : M A) : Prop :=
  ∀ σ e, J σ → (m σ).1 = inl e → e = IndexError.

(** The stores that differ from [σ] at most by an array of shape [s] held
    at [l']. *)
Definition extends_at (σ : gmap loc ndarray) (l' : loc) (s : shape)
    (τ : gmap loc ndarray) : Prop :=
  ∃ a, τ = <[l' := a]> σ ∧ shp a = s.

(** The outcome of a call that allocates its result: either the argument
    whose shape is taken is not in the store and nothing happens, or the
    store is the old one extended at a fresh location by an array of that
    shape, which is the location returned when the call ends normally. *)
Definition allocates_like (src : loc) (σ : gmap loc ndarray)
    (r : (exn + loc) * gmap loc ndarray) : Prop :=
  match σ !! src with
  | None => r = (inl InvalidRef, σ)
  | Some a =>
      extends_at σ (fresh (dom σ)) (shp a) r.2
      ∧ ∀ l, r.1 = inr l → l = fresh (dom σ)
  end.

(** Right-hand sides of the three assignments of [update_E_vec], as the code
    groups them, on the periodic lattice. *)
Definition E_rhs (d : vec3) (E B : ndarray) (i j k : Z) (c : nat) : F :=
  let '(d0, d1, d2) := d in
  match c with
  | 0%nat =>
      periodic_get E 0 i j k
      + (d1 * (periodic_get B 2 i j k - periodic_get B 2 i (j - 1) k)
         - d2 * (periodic_get B 1 i j k - periodic_get B 1 i j (k - 1)))
  | 1%nat =>
      periodic_get E 1 i j k
      + (d2 * (periodic_get B 0 i j k - periodic_get B 0 i j (k - 1))
         - d0 * (periodic_get B 2 i j k - periodic_get B 2 (i - 1) j k))
  | _ =>
      periodic_get E 2 i j k
      + (d0 * (periodic_get B 1 i j k - periodic_get B 1 (i - 1) j k)
         - d1 * (periodic_get B 0 i j k - periodic_get B 0 i (j - 1) k))
  end%A.

(** Right-hand sides of the three assignments of [update_B_vec]. *)
Definition B_rhs (d : vec3) (E B : ndarray) (i j k : Z) (c : nat) : F :=
  let '(d0, d1, d2) := d in
  match c with
  | 0%nat =>
      periodic_get B 0 i j k
      - (d1 * (periodic_get E 2 i j k - periodic_get E 2 i (j - 1) k)
         - d2 * (periodic_get E 1 i j k - periodic_get E 1 i j (k - 1)))
  | 1%nat =>
      periodic_get B 1 i j k
      - (d2 * (periodic_get E 0 i j k - periodic_get E 0 i j (k - 1))
         - d0 * (periodic_get E 2 i j k - periodic_get E 2 (i - 1) j k))
  | _ =>
      periodic_get B 2 i j k
      - (d0 * (periodic_get E 1 i j k - periodic_get E 1 (i - 1) j k)
         - d1 * (periodic_get E 0 i j k - periodic_get E 0 i (j - 1) k))
  end%A.

(** The array [a] after [v 0], [v 1], [v 2] have been stored in the three
    components of the lattice point [i, j, k]. *)
Definition write_point (v : nat → F) (a : ndarray) (i j k : nat) : ndarray :=
  mk (shp a)
     (<[offset (shp a) 2 i j k := v 2%nat]>
        (<[offset (shp a) 1 i j k := v 1%nat]>
           (<[offset (shp a) 0 i j k := v 0%nat]> (data a)))).

(** The lattice points selected by [P] hold the values [V]. *)
Definition filled (n1 n2 n3 : nat) (V : Z → Z → Z → nat → F)
    (P : nat → nat → nat → Prop) (a : ndarray) : Prop :=
  field_on n1 n2 n3 a ∧
  ∀ c i j k, (c < 3)%nat → (i < n1)%nat → (j < n2)%nat → (k < n3)%nat →
    P i j k →
    data a !! offset (3, n1, n2, n3)%nat c i j k
    = Some (V (Z.of_nat i) (Z.of_nat j) (Z.of_nat k) c).

(** A field on the lattice holds, at every lattice point, the values [V]. *)
Definition holds (n1 n2 n3 : nat) (V : Z → Z → Z → nat → F) (a : ndarray) : Prop :=
  field_on n1 n2 n3 a ∧
  ∀ (c : nat) (i j k : Z), (c < 3)%nat →
    0 ≤ i < Z.of_nat n1 → 0 ≤ j < Z.of_nat n2 → 0 ≤ k < Z.of_nat n3 →
    get a (Z.of_nat c, i, j, k) = Some (V i j k c)
    ∧ periodic_get a c i j k = V i j k c.

(** ** The time-stepper of the specification and the swapped step *)

(** The specification's time-stepper, in its words: for each of the [m]
    steps, first the E-update, then the B-update on the [E] just computed;
    after the last step the pair of fields is returned. *)
Fixpoint leapfrog_steps (dt : F) (h : vec3) (N : Z * Z * Z) (m : nat)
    (E B : loc) : M (loc * loc) :=
  match m with
  | O => mret (E, B)
  | S m' =>
      E' ← update_E_vec dt h N E B;
      B' ← update_B_vec dt h N E' B;
      leapfrog_steps dt h N m' E' B'
  end.

(** The fields after [m] steps: each step takes [E], [B] to the field [E1]
    of the E-update of [E], [B] and the field [B1] of the B-update of [E1],
    [B]. *)
Inductive leapfrog_fields (d : vec3) (n1 n2 n3 : nat) :
    nat → ndarray → ndarray → ndarray → ndarray → Prop :=
| leapfrog_done E B : leapfrog_fields d n1 n2 n3 0 E B E B
| leapfrog_step m E B E1 B1 E' B' :
    holds n1 n2 n3 (E_rhs d E B) E1 →
    holds n1 n2 n3 (B_rhs d E1 B) B1 →
    leapfrog_fields d n1 n2 n3 m E1 B1 E' B' →
    leapfrog_fields d n1 n2 n3 (S m) E B E' B'.

(** One step with the two updates swapped: the B-update first, on the old
    [E], then the E-update on the [B] just computed. *)
Definition swapped_step (dt : F) (h : vec3) (N : Z * Z * Z)
    (E_vec B_vec : loc) : M (loc * loc) :=
  B_vec' ← update_B_vec dt h N E_vec B_vec;
  E_vec' ← update_E_vec dt h N E_vec B_vec';
  mret (E_vec', B_vec').

(** The pair of arrays a step has returned, read from the store it left. *)
Definition fields_of (r : (exn + loc * loc) * gmap loc ndarray)
    : option (ndarray * ndarray) :=
  match r.1 with
  | inr (lE, lB) => E ← r.2 !! lE; B ← r.2 !! lB; Some (E, B)
  | inl _ => None
  end.

(** ** Arrays larger than the lattice *)

Definition covers (n1 n2 n3 : nat) (a : ndarray) : Prop :=
  wf a ∧ room n1 n2 n3 (shp a).

Global Instance covers_dec n1 n2 n3 a : Decision (covers n1 n2 n3 a).
Proof. unfold covers. apply _. Defined.

(** An array of the shape [s] that holds the values [V] in the entries
    the loops assign and zero in all its other entries. *)
Definition holds_within (s : shape) (n1 n2 n3 : nat) (V : Z → Z → Z → nat → F)
    (a : ndarray) : Prop :=
  wf a ∧ shp a = s ∧
  ∀ (c : nat) (i j k : Z),
    (c < s.1.1.1)%nat → 0 ≤ i < Z.of_nat s.1.1.2 →
    0 ≤ j < Z.of_nat s.1.2 → 0 ≤ k < Z.of_nat s.2 →
    get a (Z.of_nat c, i, j, k)
    = Some (if decide (assigned n1 n2 n3 c i j k) then V i j k c else 0%A).

(** The invariant of the loops for [holds_within]: the lattice points
    selected by [P] hold the values [V], the entries that are never assigned
    hold zero. *)
Definition filled_within (s : shape) (n1 n2 n3 : nat) (V : Z → Z → Z → nat → F)
    (P : nat → nat → nat → Prop) (a : ndarray) : Prop :=
  wf a ∧ shp a = s ∧
  (∀ c i j k, (c < 3)%nat → (i < n1)%nat → (j < n2)%nat → (k < n3)%nat →
     P i j k →
     data a !! offset s c i j k
     = Some (V (Z.of_nat i) (Z.of_nat j) (Z.of_nat k) c)) ∧
  (∀ c i j k, (c < s.1.1.1)%nat → (i < s.1.1.2)%nat → (j < s.1.2)%nat →
     (k < s.2)%nat →
     ¬ ((c < 3)%nat ∧ (i < n1)%nat ∧ (j < n2)%nat ∧ (k < n3)%nat) →
     data a !! offset s c i j k = Some 0%A).

(** The stores in which every array of [σ] is still what it was. *)
Definition keeps (σ : gmap loc ndarray) (τ : gmap loc ndarray) : Prop :=
  ∀ l a, σ !! l = Some a → τ !! l = Some a.

(** ** The set-up of the notebook: grid, initial fields, whole run *)

(** A computation of [M] as one of [Py]. *)
Definition lift {A} (m : M A) : Py A := λ σ,
  match m σ with
  | (inl e, σ') => (inl (Raised e), σ')
  | (inr a, σ') => (inr a, σ')
  end.

(** A value or an exception of the set-up code, as a computation. *)
Definition of_result {A} (r : py_exn + A) : Py A := λ σ, (r, σ).

(** [y[-1] = stop] on a one-dimensional array that is not empty. *)
Definition set_last (stop : F) (y : list F) : list F :=
  <[(length y - 1)%nat := stop]> y.

(** [np.linspace(start, stop, num)], with numpy's algorithm: [ValueError]
    when [num] is negative; otherwise, with [div = num - 1] and
    [delta = stop - start], the counts [0 .. num - 1] in the element type
    are multiplied by [step = delta / div] and [start] is added, and the
    last sample is overwritten with [stop].  When [step] is zero numpy
    divides the counts by [div] and multiplies by [delta] instead, and when
    [div] is not positive (no sample or one) it multiplies by [delta]. *)
Definition linspace (start stop : F) (num : Z) : py_exn + list F :=
  if decide (num < 0) then inl ValueError
  else
    let div := num - 1 in
    let delta := (stop - start)%A in
    let y := of_int <$> range num in
    inr (if decide (0 < div) then
           let step := (delta / of_int div)%A in
           let y := if is_zero step
                    then (λ v, v / of_int div * delta)%A <$> y
                    else (λ v, v * step)%A <$> y in
           set_last stop ((λ v, v + start)%A <$> y)
         else (λ v, v * delta + start)%A <$> y).

(** [xs[:-1]] *)
Definition drop_last (xs : list F) : list F := take (length xs - 1) xs.

(** [xs[i]] on a one-dimensional array. *)
Definition index1 (xs : list F) (i : Z) : py_exn + F :=
  match norm_index (length xs) i with
  | Some i' =>
      match xs !! i' with
      | Some x => inr x
      | None => inl (Raised IndexError)
      end
  | None => inl (Raised IndexError)
  end.

(** One pass of the loop that sets up the grid: the sample points of one
    axis and its spacing,
    [Omega[i] = np.linspace(a, b, N[i]+1)[:-1]] and
    [h[i] = Omega[i][1] - Omega[i][0]]. *)
Definition grid_axis (a b : F) (n : Z) : py_exn + list F * F :=
  match linspace a b (n + 1) with
  | inl e => inl e
  | inr xs =>
      let Omega_i := drop_last xs in
      match index1 Omega_i 1 with
      | inl e => inl e
      | inr x1 =>
          match index1 Omega_i 0 with
          | inl e => inl e
          | inr x0 => inr (Omega_i, (x1 - x0)%A)
          end
      end
  end.

(** The loop [for i in range(3)] that sets up the grid: [Omega] and [h]. *)
Definition grid_setup (a b : F) (N : Z * Z * Z)
    : py_exn + (list F * list F * list F) * vec3 :=
  let '(N_0, N_1, N_2) := N in
  match grid_axis a b N_0 with
  | inl e => inl e
  | inr (Omega_0, h_0) =>
      match grid_axis a b N_1 with
      | inl e => inl e
      | inr (Omega_1, h_1) =>
          match grid_axis a b N_2 with
          | inl e => inl e
          | inr (Omega_2, h_2) =>
              inr ((Omega_0, Omega_1, Omega_2), (h_0, h_1, h_2))
          end
      end
  end.

(** [np.empty(s)]: a new array whose content is whatever the memory holds,
    here the values [uninit]. *)
Definition np_empty (uninit : nat → F) (s : shape) : M loc := λ σ,
  let l := fresh (dom σ) in (inr l, <[l := mk s (uninit <$> seq 0 (size s))]> σ).

(** [xs[i]] inside a computation of [M]. *)
Definition getitem1 (xs : list F) (i : Z) : M F := λ σ,
  match index1 xs i with
  | inr x => (inr x, σ)
  | inl _ => (inl IndexError, σ)
  end.

(** [l.copy()] *)
Definition np_copy (l : loc) : M loc := λ σ,
  match σ !! l with
  | Some a => let l' := fresh (dom σ) in (inr l', <[l' := a]> σ)
  | None => (inl InvalidRef, σ)
  end.

Section analytic.

(** The closed-form solution of the notebook.  Its components are built
    from [np.cos] and [np.sqrt], which are not among the operations of
    [Arith]: they are taken as arbitrary functions of [t, x, y, z].
    [By_ana] is the constant 0 of the notebook. *)
Variables Ex_ana Ey_ana Ez_ana Bx_ana Bz_ana : F → F → F → F → F.

(** What the memory that [np.empty] hands out holds. *)
Variable uninit : nat → F.

Definition By_ana (t x y z : F) : F := 0%A.

(** The body of the loops of [eval_E_ana] and [eval_B_ana], for the three
    component functions [f0], [f1], [f2]. *)
Definition eval_point (f0 f1 f2 : F → F → F → F → F) (t : F)
    (Omega : list F * list F * list F) (temp : loc) (i j k : Z) : M unit :=
  let '(Omega_0, Omega_1, Omega_2) := Omega in
  (x ← getitem1 Omega_0 i; y ← getitem1 Omega_1 j; z ← getitem1 Omega_2 k;
   setitem temp (0, i, j, k) (f0 t x y z));;
  (x ← getitem1 Omega_0 i; y ← getitem1 Omega_1 j; z ← getitem1 Omega_2 k;
   setitem temp (1, i, j, k) (f1 t x y z));;
  (x ← getitem1 Omega_0 i; y ← getitem1 Omega_1 j; z ← getitem1 Omega_2 k;
   setitem temp (2, i, j, k) (f2 t x y z)).

Definition eval_ana (f0 f1 f2 : F → F → F → F → F) (t : F)
    (Omega : list F * list F * list F) (N : Z * Z * Z) : Py loc :=
  let '(N_0, N_1, N_2) := N in
  if decide (N_0 < 0 ∨ N_1 < 0 ∨ N_2 < 0) then of_result (inl ValueError)
  else lift (
    temp ← np_empty uninit (3%nat, Z.to_nat N_0, Z.to_nat N_1, Z.to_nat N_2);
    for_each (range N_0) (λ i,
      for_each (range N_1) (λ j,
        for_each (range N_2) (λ k,
          eval_point f0 f1 f2 t Omega temp i j k)));;
    mret temp).

Definition eval_E_ana (t : F) (Omega : list F * list F * list F)
    (N : Z * Z * Z) : Py loc :=
  eval_ana Ex_ana Ey_ana Ez_ana t Omega N.

Definition eval_B_ana (t : F) (Omega : list F * list F * list F)
    (N : Z * Z * Z) : Py loc :=
  eval_ana Bx_ana By_ana Bz_ana t Omega N.

(** The notebook from the set-up of the grid to the end of the time
    iteration; it returns [E0], [B0] and the final [E_vec], [B_vec]. *)
Definition simulation (dt : F) (N_timesteps : Z) (N : Z * Z * Z) (a b : F)
    : Py (loc * loc * (loc * loc)) :=
  '(Omega, h) ← of_result (grid_setup a b N);
  E0 ← eval_E_ana 0%A Omega N;
  B0 ← eval_B_ana 0%A Omega N;
  E_vec ← lift (np_copy E0);
  B_vec ← lift (np_copy B0);
  r ← lift (time_iteration dt h N N_timesteps E_vec B_vec);
  mret (E0, B0, r).

End analytic.

(** The sample of index [k] among the [n] that [np.linspace(a, b, n + 1)]
    puts before its last one, as numpy computes it. *)
Definition sample (a b : F) (n : Z) (k : Z) : F :=
  let step := ((b - a) / of_int n)%A in
  if is_zero step then (of_int k / of_int n * (b - a) + a)%A
  else (of_int k * step + a)%A.

(** The [n] sample points of an axis of the grid. *)
Definition samples (a b : F) (n : Z) : list F := sample a b n <$> range n.

(** The spacing the notebook reads off the first two sample points. *)
Definition spacing (a b : F) (n : Z) : F := (sample a b n 1 - sample a b n 0)%A.

(** The value of the component [c] of a closed-form field at the grid point
    of indices [i, j, k]: [f0], [f1] or [f2] at the sample points
    [Omega[0][i]], [Omega[1][j]], [Omega[2][k]]. *)
Definition grid_value (f0 f1 f2 : F → F → F → F → F) (t : F)
    (Omega : list F * list F * list F) (i j k : Z) (c : nat) : F :=
  let '(Omega_0, Omega_1, Omega_2) := Omega in
  let x := default 0%A (Omega_0 !! Z.to_nat i) in
  let y := default 0%A (Omega_1 !! Z.to_nat j) in
  let z := default 0%A (Omega_2 !! Z.to_nat k) in
  match c with
  | 0%nat => f0 t x y z
  | 1%nat => f1 t x y z
  | _ => f2 t x y z
  end.

(** * Proofs *)

(** ** Facts on array access *)

Section access.
Implicit Types (a : ndarray) (n c i j k : nat) (z : Z).

Lemma norm_index_nonneg n z :
  0 ≤ z < Z.of_nat n → norm_index n z = Some (Z.to_nat z).
Proof. intros Hz. unfold norm_index. by rewrite decide_True. Qed.

Lemma wrap_nonneg n z : 0 ≤ z < Z.of_nat n → wrap n z = Z.to_nat z.
Proof. intros Hz. unfold wrap. by rewrite Z.mod_small. Qed.

Lemma wrap_neg n z : - Z.of_nat n ≤ z < 0 → wrap n z = Z.to_nat (z + Z.of_nat n).
Proof.
  intros Hz. unfold wrap. f_equal.
  symmetry. apply (Z.mod_unique_pos _ _ (-1)); lia.
Qed.

Lemma wrap_lt n z : (0 < n)%nat → (wrap n z < n)%nat.
Proof.
  intros Hn. unfold wrap.
  pose proof (Z.mod_pos_bound z (Z.of_nat n)). lia.
Qed.

Lemma norm_index_wrap n z :
  - Z.of_nat n ≤ z < Z.of_nat n → norm_index n z = Some (wrap n z).
Proof.
  intros Hz. unfold norm_index.
  destruct (decide (0 ≤ z < Z.of_nat n)).
  - by rewrite wrap_nonneg.
  - rewrite decide_True by lia. rewrite wrap_neg by lia. done.
Qed.

Lemma norm_index_None n z :
  z < - Z.of_nat n ∨ Z.of_nat n ≤ z → norm_index n z = None.
Proof.
  intros Hz. unfold norm_index.
  rewrite decide_False by lia. by rewrite decide_False by lia.
Qed.

Lemma offset_lt n0 n1 n2 n3 c i j k :
  (c < n0)%nat → (i < n1)%nat → (j < n2)%nat → (k < n3)%nat →
  (offset (n0, n1, n2, n3) c i j k < size (n0, n1, n2, n3))%nat.
Proof.
  intros Hc Hi Hj Hk. simpl.
  assert (c * n1 + i + 1 ≤ n0 * n1)%nat by nia.
  assert ((c * n1 + i) * n2 + j + 1 ≤ n0 * n1 * n2)%nat by nia.
  nia.
Qed.

Lemma mul_add_inj n x y x' y' :
  (y < n)%nat → (y' < n)%nat → (x * n + y = x' * n + y')%nat → x = x' ∧ y = y'.
Proof.
  intros Hy Hy' Heq.
  assert (x = x') as ->; [|lia].
  destruct (Nat.lt_trichotomy x x') as [Hlt|[->|Hlt]]; [|done|].
  - assert ((x + 1) * n ≤ x' * n)%nat by (apply Nat.mul_le_mono_r; lia). lia.
  - assert ((x' + 1) * n ≤ x * n)%nat by (apply Nat.mul_le_mono_r; lia). lia.
Qed.

Lemma offset_inj n0 n1 n2 n3 c i j k c' i' j' k' :
  (i < n1)%nat → (j < n2)%nat → (k < n3)%nat →
  (i' < n1)%nat → (j' < n2)%nat → (k' < n3)%nat →
  offset (n0, n1, n2, n3) c i j k = offset (n0, n1, n2, n3) c' i' j' k' →
  c = c' ∧ i = i' ∧ j = j' ∧ k = k'.
Proof.
  intros Hi Hj Hk Hi' Hj' Hk' Heq. simpl in Heq.
  apply mul_add_inj in Heq as [Heq ->]; [|done..].
  apply mul_add_inj in Heq as [Heq ->]; [|done..].
  apply mul_add_inj in Heq as [-> ->]; done.
Qed.

Lemma flat_index_wrap n0 n1 n2 n3 c (zi zj zk : Z) :
  (c < n0)%nat →
  - Z.of_nat n1 ≤ zi < Z.of_nat n1 →
  - Z.of_nat n2 ≤ zj < Z.of_nat n2 →
  - Z.of_nat n3 ≤ zk < Z.of_nat n3 →
  flat_index (n0, n1, n2, n3) (Z.of_nat c, zi, zj, zk)
  = Some (offset (n0, n1, n2, n3) c (wrap n1 zi) (wrap n2 zj) (wrap n3 zk)).
Proof.
  intros Hc Hi Hj Hk. unfold flat_index.
  rewrite (norm_index_nonneg n0 (Z.of_nat c)) by lia.
  rewrite (norm_index_wrap n1 zi), (norm_index_wrap n2 zj),
    (norm_index_wrap n3 zk) by done.
  simpl. by rewrite Nat2Z.id.
Qed.

Lemma get_periodic a n0 n1 n2 n3 c (zi zj zk : Z) :
  wf a → shp a = (n0, n1, n2, n3) → (c < n0)%nat →
  - Z.of_nat n1 ≤ zi < Z.of_nat n1 →
  - Z.of_nat n2 ≤ zj < Z.of_nat n2 →
  - Z.of_nat n3 ≤ zk < Z.of_nat n3 →
  get a (Z.of_nat c, zi, zj, zk) = Some (periodic_get a c zi zj zk).
Proof.
  intros Hwf Hs Hc Hi Hj Hk. unfold get, periodic_get. rewrite Hs.
  rewrite flat_index_wrap by done. cbn [mbind option_bind].
  destruct (lookup_lt_is_Some_2 (data a)
    (offset (n0, n1, n2, n3) c (wrap n1 zi) (wrap n2 zj) (wrap n3 zk)))
    as [v Hv]; [|by rewrite Hv].
  rewrite Hwf, Hs. apply offset_lt; [done|apply wrap_lt; lia..].
Qed.

Lemma set_lattice a n0 n1 n2 n3 c i j k v :
  wf a → shp a = (n0, n1, n2, n3) →
  (c < n0)%nat → (i < n1)%nat → (j < n2)%nat → (k < n3)%nat →
  set a (Z.of_nat c, Z.of_nat i, Z.of_nat j, Z.of_nat k) v
  = Some (mk (shp a) (<[offset (shp a) c i j k := v]> (data a))).
Proof.
  intros Hwf Hs Hc Hi Hj Hk. unfold set. rewrite Hs.
  rewrite flat_index_wrap by lia.
  rewrite !wrap_nonneg, !Nat2Z.id by lia. cbn [mbind option_bind].
  rewrite decide_True; [done|].
  rewrite Hwf, Hs. by apply offset_lt.
Qed.

End access.

(** ** Reasoning on computations *)

Section monad_facts.
Context {A B : Type}.
Implicit Types (σ τ : gmap loc ndarray).

Lemma runs_ret (a : A) σ : runs (mret a) σ a σ.
Proof. done. Qed.

Lemma runs_bind (m : M A) (k : A → M B) σ a σ1 b σ2 :
  runs m σ a σ1 → runs (k a) σ1 b σ2 → runs (m ≫= k) σ b σ2.
Proof.
  unfold runs. intros Hm Hk.
  unfold mbind, M_bind. by rewrite Hm.
Qed.

Lemma bind_eq (m : M A) (k : A → M B) σ a σ1 :
  m σ = (inr a, σ1) → (m ≫= k) σ = k a σ1.
Proof. intros Hm. unfold mbind, M_bind. by rewrite Hm. Qed.

Lemma bind_raise (m : M A) (k : A → M B) σ e σ1 :
  m σ = (inl e, σ1) → (m ≫= k) σ = (inl e, σ1).
Proof. intros Hm. unfold mbind, M_bind. by rewrite Hm. Qed.

Lemma then_ret (m : M A) (b : B) σ :
  ((m ≫= λ _, mret b) σ).2 = (m σ).2
  ∧ ∀ b', ((m ≫= λ _, mret b) σ).1 = inr b' → b' = b.
Proof.
  unfold mbind, M_bind. destruct (m σ) as [[e|a] σ1]; simpl; [done|].
  split; [done|]. by intros b' [= <-].
Qed.

Lemma runs_post (m : M A) σ a τ τ' : runs m σ a τ' → τ' = τ → runs m σ a τ.
Proof. by intros ? <-. Qed.

Lemma runs_bind_inv (m : M A) (k : A → M B) σ b σ2 :
  runs (m ≫= k) σ b σ2 → ∃ a σ1, runs m σ a σ1 ∧ runs (k a) σ1 b σ2.
Proof.
  unfold runs, mbind, M_bind. destruct (m σ) as [[e|a] σ1]; [done|].
  intros Hk. by exists a, σ1.
Qed.

Lemma preserves_ret J (a : A) : preserves J (mret a : M A).
Proof. by intros σ. Qed.

Lemma preserves_bind J (m : M A) (k : A → M B) :
  preserves J m → (∀ a, preserves J (k a)) → preserves J (m ≫= k).
Proof.
  intros Hm Hk σ HJ. specialize (Hm σ HJ).
  unfold mbind, M_bind. destruct (m σ) as [[e|a] σ1]; [done|].
  by apply Hk.
Qed.

End monad_facts.

Section loop_facts.
Implicit Types (σ τ : gmap loc ndarray).

Lemma preserves_for_each {A} J (xs : list A) (body : A → M unit) :
  (∀ x, preserves J (body x)) → preserves J (for_each xs body).
Proof.
  intros Hbody. induction xs as [|x xs IH]; simpl.
  - apply preserves_ret.
  - apply preserves_bind; [apply Hbody|]. by intros _.
Qed.

Lemma preserves_for_each_st {A S} J (xs : list A) (body : A → S → M S) s :
  (∀ x s, preserves J (body x s)) → preserves J (for_each_st xs s body).
Proof.
  intros Hbody. revert s. induction xs as [|x xs IH]; intros s; simpl.
  - apply preserves_ret.
  - apply preserves_bind; [apply Hbody|]. done.
Qed.

Lemma range_of_nat (n : nat) : range (Z.of_nat n) = Z.of_nat <$> seq 0 n.
Proof. unfold range. by rewrite Nat2Z.id. Qed.

Lemma for_each_seq_inv (I : nat → gmap loc ndarray → Prop) body (m s : nat) σ :
  I s σ →
  (∀ a τ, (s ≤ a < s + m)%nat → I a τ →
          ∃ τ', runs (body (Z.of_nat a)) τ () τ' ∧ I (S a) τ') →
  ∃ τ', runs (for_each (Z.of_nat <$> seq s m) body) σ () τ' ∧ I (s + m)%nat τ'.
Proof.
  revert s σ. induction m as [|m IH]; intros s σ HI Hstep.
  - exists σ. rewrite Nat.add_0_r. split; [apply runs_ret|done].
  - destruct (Hstep s σ) as (τ & Hrun & HI'); [lia|done|].
    destruct (IH (S s) τ) as (τ' & Hrun' & HI''); [done| |].
    { intros a υ Ha. apply Hstep. lia. }
    exists τ'. split.
    + simpl. eapply runs_bind; [exact Hrun|exact Hrun'].
    + by replace (s + S m)%nat with (S s + m)%nat by lia.
Qed.

(** The rule for [for i in range(n)], with the invariant indexed by the
    number of passes made. *)
Lemma for_range_inv (I : nat → gmap loc ndarray → Prop) body (n : nat) σ :
  I 0%nat σ →
  (∀ a τ, (a < n)%nat → I a τ →
          ∃ τ', runs (body (Z.of_nat a)) τ () τ' ∧ I (S a) τ') →
  ∃ τ', runs (for_each (range (Z.of_nat n)) body) σ () τ' ∧ I n τ'.
Proof.
  intros HI Hstep. rewrite range_of_nat.
  apply (for_each_seq_inv I body n 0 σ HI).
  intros a τ Ha. apply Hstep. lia.
Qed.

End loop_facts.

(** ** Reading and writing in the store *)

Section store_facts.
Implicit Types (σ : gmap loc ndarray) (l : loc) (a : ndarray).

Lemma runs_np_shape σ l a : σ !! l = Some a → runs (np_shape l) σ (shp a) σ.
Proof. intros Hl. unfold runs, np_shape. by rewrite Hl. Qed.

Lemma runs_np_zeros σ s :
  runs (np_zeros s) σ (fresh (dom σ)) (<[fresh (dom σ) := zeros s]> σ).
Proof. done. Qed.

Lemma fresh_lookup σ : σ !! fresh (dom σ) = None.
Proof. apply not_elem_of_dom, is_fresh. Qed.

(** A read of [l] while the array under construction sits at [l']. *)
Lemma runs_getitem σ l l' a a' idx v :
  σ !! l' = None → σ !! l = Some a → get a idx = Some v →
  runs (getitem l idx) (<[l' := a']> σ) v (<[l' := a']> σ).
Proof.
  intros Hl' Hl Hget. unfold runs, getitem.
  rewrite lookup_insert_ne by congruence. by rewrite Hl, Hget.
Qed.

(** A write into the array under construction. *)
Lemma runs_setitem σ l' a a' idx v :
  set a idx v = Some a' →
  runs (setitem l' idx v) (<[l' := a]> σ) () (<[l' := a']> σ).
Proof.
  intros Hset. unfold runs, setitem.
  rewrite lookup_insert_eq, Hset. by rewrite insert_insert_eq.
Qed.

Lemma preserves_getitem J l idx : preserves J (getitem l idx).
Proof.
  intros σ HJ. unfold getitem.
  destruct (σ !! l) as [a|]; [|done]. by destruct (get a idx).
Qed.

Lemma preserves_setitem σ l' s idx v :
  preserves (extends_at σ l' s) (setitem l' idx v).
Proof.
  intros τ (a & -> & Hs). unfold setitem. rewrite lookup_insert_eq.
  destruct (set a idx v) as [a'|] eqn:Hset; simpl; [|by exists a].
  exists a'. split; [by rewrite insert_insert_eq|].
  unfold set in Hset. destruct (flat_index (shp a) idx); [|done].
  simpl in Hset. case_decide; [|done]. by simplify_eq.
Qed.

End store_facts.

(** ** Filling the output array *)

Section filling.
Variables (n1 n2 n3 : nat).
Variable V : Z → Z → Z → nat → F.

Lemma filled_weaken (P Q : nat → nat → nat → Prop) a :
  (∀ i j k, (i < n1)%nat → (j < n2)%nat → (k < n3)%nat → Q i j k → P i j k) →
  filled n1 n2 n3 V P a → filled n1 n2 n3 V Q a.
Proof. intros HQP [Hf Hv]. split; [done|]. intros; apply Hv; auto. Qed.

Lemma field_on_write_point v a i j k :
  field_on n1 n2 n3 a → field_on n1 n2 n3 (write_point v a i j k).
Proof.
  intros [Hwf Hs]. split; [|done].
  unfold wf, write_point. simpl. by rewrite !length_insert.
Qed.

Lemma filled_write_point (P : nat → nat → nat → Prop) a i j k :
  (i < n1)%nat → (j < n2)%nat → (k < n3)%nat →
  filled n1 n2 n3 V P a →
  filled n1 n2 n3 V (λ i' j' k', P i' j' k' ∨ (i' = i ∧ j' = j ∧ k' = k))
    (write_point (V (Z.of_nat i) (Z.of_nat j) (Z.of_nat k)) a i j k).
Proof.
  intros Hi Hj Hk [Hf Hv]. split; [by apply field_on_write_point|].
  destruct Hf as [Hwf Hs].
  intros c i' j' k' Hc Hi' Hj' Hk' HP.
  unfold write_point. simpl. rewrite Hs.
  assert (∀ c', (c' < 3)%nat →
    (offset (3, n1, n2, n3)%nat c' i j k < length (data a))%nat) as Hlen.
  { intros c' Hc'. rewrite Hwf, Hs. by apply offset_lt. }
  assert (∀ c', (c' = c ∧ i = i' ∧ j = j' ∧ k = k') ∨
    offset (3, n1, n2, n3)%nat c' i j k ≠ offset (3, n1, n2, n3)%nat c i' j' k')
    as Hcase.
  { intros c'.
    destruct (decide (offset (3, n1, n2, n3)%nat c' i j k
                      = offset (3, n1, n2, n3)%nat c i' j' k')) as [Heq|]; [|by right].
    left. by apply offset_inj in Heq. }
  destruct (Hcase 2%nat) as [(<- & <- & <- & <-)|Hne2].
  { rewrite list_lookup_insert_eq; [done|]. rewrite !length_insert. by apply Hlen. }
  rewrite list_lookup_insert_ne by done.
  destruct (Hcase 1%nat) as [(<- & <- & <- & <-)|Hne1].
  { rewrite list_lookup_insert_eq; [done|]. rewrite !length_insert. apply Hlen. lia. }
  rewrite list_lookup_insert_ne by done.
  destruct (Hcase 0%nat) as [(<- & <- & <- & <-)|Hne0].
  { rewrite list_lookup_insert_eq; [done|]. apply Hlen. lia. }
  rewrite list_lookup_insert_ne by done.
  destruct HP as [HP|(-> & -> & ->)]; [by apply Hv|].
  assert (c < 3)%nat as Hc3 by done.
  destruct c as [|[|[|c]]]; [done|done|done|lia].
Qed.

(** The three nested loops over the lattice, for a body that stores the
    values [V] at its point: they end normally, and every lattice point
    then holds its value. *)
Lemma lattice_loops_run (body : Z → Z → Z → M unit) σ l' a0 :
  (∀ a i j k, field_on n1 n2 n3 a →
     (i < n1)%nat → (j < n2)%nat → (k < n3)%nat →
     runs (body (Z.of_nat i) (Z.of_nat j) (Z.of_nat k)) (<[l' := a]> σ) ()
       (<[l' := write_point (V (Z.of_nat i) (Z.of_nat j) (Z.of_nat k)) a i j k]> σ)) →
  field_on n1 n2 n3 a0 →
  ∃ a', runs (for_each (range (Z.of_nat n1)) (λ i,
                for_each (range (Z.of_nat n2)) (λ j,
                  for_each (range (Z.of_nat n3)) (λ k, body i j k))))
          (<[l' := a0]> σ) () (<[l' := a']> σ)
        ∧ filled n1 n2 n3 V (λ _ _ _, True) a'.
Proof.
  intros Hbody Ha0.
  pose (I1 := λ (x : nat) (τ : gmap loc ndarray),
    ∃ a, τ = <[l' := a]> σ ∧ filled n1 n2 n3 V (λ i _ _, (i < x)%nat) a).
  destruct (for_range_inv I1 (λ i,
              for_each (range (Z.of_nat n2)) (λ j,
                for_each (range (Z.of_nat n3)) (λ k, body i j k)))
            n1 (<[l' := a0]> σ)) as (τ & Hrun & a' & -> & Hfill).
  { exists a0. split; [done|]. split; [done|]. intros; lia. }
  { intros x τ Hx (a & -> & Ha).
    pose (I2 := λ (y : nat) (τ : gmap loc ndarray),
      ∃ a, τ = <[l' := a]> σ
           ∧ filled n1 n2 n3 V (λ i j _, (i < x)%nat ∨ (i = x ∧ j < y)%nat) a).
    destruct (for_range_inv I2 (λ j,
                for_each (range (Z.of_nat n3)) (λ k, body (Z.of_nat x) j k))
              n2 (<[l' := a]> σ)) as (τ & Hrun & a' & -> & Hfill).
    { exists a. split; [done|]. eapply filled_weaken; [|exact Ha].
      simpl. intros; lia. }
    { intros y τ Hy (b & -> & Hb).
      pose (I3 := λ (z : nat) (τ : gmap loc ndarray),
        ∃ a, τ = <[l' := a]> σ
             ∧ filled n1 n2 n3 V (λ i j k, (i < x)%nat ∨ (i = x ∧ j < y)%nat
                                ∨ (i = x ∧ j = y ∧ k < z)%nat) a).
      destruct (for_range_inv I3 (λ k, body (Z.of_nat x) (Z.of_nat y) k)
                n3 (<[l' := b]> σ)) as (τ & Hrun & a' & -> & Hfill).
      { exists b. split; [done|]. eapply filled_weaken; [|exact Hb].
        simpl. intros; lia. }
      { intros z τ Hz (c & -> & Hc).
        eexists. split; [apply Hbody; [apply Hc|done..]|].
        eexists. split; [done|].
        eapply filled_weaken; [|apply filled_write_point; [..|exact Hc]; done].
        simpl. intros; lia. }
      exists (<[l' := a']> σ). split; [done|]. exists a'. split; [done|].
      eapply filled_weaken; [|exact Hfill]. simpl. intros; lia. }
    exists (<[l' := a']> σ). split; [done|]. exists a'. split; [done|].
    eapply filled_weaken; [|exact Hfill]. simpl. intros; lia. }
  exists a'. split; [done|].
  destruct Hfill as [Hf Hv]. split; [done|]. intros. by apply Hv.
Qed.

End filling.

(** ** One pass of the loop bodies *)

Lemma wf_insert a o v : wf a → wf (mk (shp a) (<[o := v]> (data a))).
Proof. unfold wf. simpl. by rewrite length_insert. Qed.

(** Steps through [x ← getitem l (c, i, j, k); ...], the array read being
    [X] and the component [c]. *)
Ltac read_step X c :=
  eapply runs_bind;
  [ eapply runs_getitem;
    [ eassumption
    | eassumption
    | eapply (get_periodic X 3 _ _ _ c); [done | eassumption | lia | lia | lia | lia] ]
  | ].

(** Steps through [setitem l' (c, i, j, k) v]. *)
Ltac write_step c :=
  eapply runs_setitem;
  eapply (set_lattice _ 3 _ _ _ c); [ | eassumption | lia | done | done | done].

Section point.
Variables (σ : gmap loc ndarray) (lE lB l' : loc) (E B : ndarray).
Variables (n1 n2 n3 : nat).
Hypothesis HlE : σ !! lE = Some E.
Hypothesis HlB : σ !! lB = Some B.
Hypothesis Hl' : σ !! l' = None.
Hypothesis HE : field_on n1 n2 n3 E.
Hypothesis HB : field_on n1 n2 n3 B.

Lemma update_E_point_runs d a i j k :
  field_on n1 n2 n3 a → (i < n1)%nat → (j < n2)%nat → (k < n3)%nat →
  runs (update_E_point d lE lB l' (Z.of_nat i) (Z.of_nat j) (Z.of_nat k))
    (<[l' := a]> σ) ()
    (<[l' := write_point
               (E_rhs d E B (Z.of_nat i) (Z.of_nat j) (Z.of_nat k)) a i j k]> σ).
Proof.
  intros [Hwf Hs] Hi Hj Hk.
  destruct HE as [HwfE HsE], HB as [HwfB HsB].
  destruct d as [[d0 d1] d2]. unfold update_E_point, write_point, E_rhs.
  eapply runs_post.
  { eapply runs_bind.
    { read_step E 0%nat. read_step B 2%nat. read_step B 2%nat.
      read_step B 1%nat. read_step B 1%nat. write_step 0%nat. done. }
    eapply runs_bind.
    { read_step E 1%nat. read_step B 0%nat. read_step B 0%nat.
      read_step B 2%nat. read_step B 2%nat. write_step 1%nat.
      by apply wf_insert. }
    read_step E 2%nat. read_step B 1%nat. read_step B 1%nat.
    read_step B 0%nat. read_step B 0%nat. write_step 2%nat.
    by apply wf_insert, wf_insert. }
  reflexivity.
Qed.

Lemma update_B_point_runs d a i j k :
  field_on n1 n2 n3 a → (i < n1)%nat → (j < n2)%nat → (k < n3)%nat →
  runs (update_B_point d lE lB l' (Z.of_nat i) (Z.of_nat j) (Z.of_nat k))
    (<[l' := a]> σ) ()
    (<[l' := write_point
               (B_rhs d E B (Z.of_nat i) (Z.of_nat j) (Z.of_nat k)) a i j k]> σ).
Proof.
  intros [Hwf Hs] Hi Hj Hk.
  destruct HE as [HwfE HsE], HB as [HwfB HsB].
  destruct d as [[d0 d1] d2]. unfold update_B_point, write_point, B_rhs.
  eapply runs_post.
  { eapply runs_bind.
    { read_step B 0%nat. read_step E 2%nat. read_step E 2%nat.
      read_step E 1%nat. read_step E 1%nat. write_step 0%nat. done. }
    eapply runs_bind.
    { read_step B 1%nat. read_step E 0%nat. read_step E 0%nat.
      read_step E 2%nat. read_step E 2%nat. write_step 1%nat.
      by apply wf_insert. }
    read_step B 2%nat. read_step E 1%nat. read_step E 1%nat.
    read_step E 0%nat. read_step E 0%nat. write_step 2%nat.
    by apply wf_insert, wf_insert. }
  reflexivity.
Qed.

End point.

(** ** The two updates as a whole *)

Lemma field_on_zeros n1 n2 n3 : field_on n1 n2 n3 (zeros (3, n1, n2, n3)%nat).
Proof. split; [|done]. unfold wf, zeros. simpl. by rewrite length_replicate. Qed.

Lemma filled_holds n1 n2 n3 V a : filled n1 n2 n3 V (λ _ _ _, True) a → holds n1 n2 n3 V a.
Proof.
  intros [Hf Hv]. split; [done|]. intros c i j k Hc Hi Hj Hk.
  destruct Hf as [Hwf Hs].
  specialize (Hv c (Z.to_nat i) (Z.to_nat j) (Z.to_nat k)).
  rewrite !Z2Nat.id in Hv by lia.
  assert (periodic_get a c i j k = V i j k c) as Hp.
  { unfold periodic_get. rewrite Hs. rewrite !wrap_nonneg by done.
    rewrite Hv; [done|lia..]. }
  split; [|done].
  rewrite (get_periodic a 3 n1 n2 n3) by (done || lia). by rewrite Hp.
Qed.

Section updates.
Variables (σ : gmap loc ndarray) (lE lB : loc) (E B : ndarray).
Variables (n1 n2 n3 : nat).
Hypothesis HlE : σ !! lE = Some E.
Hypothesis HlB : σ !! lB = Some B.
Hypothesis HE : field_on n1 n2 n3 E.
Hypothesis HB : field_on n1 n2 n3 B.

(** On two fields of the lattice [N], [update_E_vec] returns a new array
    that holds the right-hand sides of its assignments. *)
Lemma update_E_vec_runs dt h :
  ∃ E', runs (update_E_vec dt h (Z.of_nat n1, Z.of_nat n2, Z.of_nat n3) lE lB)
          σ (fresh (dom σ)) (<[fresh (dom σ) := E']> σ)
        ∧ holds n1 n2 n3 (E_rhs (scalar_div dt h) E B) E'.
Proof.
  destruct (lattice_loops_run n1 n2 n3 (E_rhs (scalar_div dt h) E B)
              (update_E_point (scalar_div dt h) lE lB (fresh (dom σ)))
              σ (fresh (dom σ)) (zeros (3, n1, n2, n3)%nat))
    as (E' & Hrun & Hfill).
  { intros a i j k Ha Hi Hj Hk.
    by apply (update_E_point_runs σ lE lB _ E B n1 n2 n3);
      [..|apply fresh_lookup| | | | | |]. }
  { apply field_on_zeros. }
  exists E'. split; [|by apply filled_holds].
  unfold update_E_vec.
  eapply runs_bind; [by apply runs_np_shape|].
  eapply runs_bind; [apply runs_np_zeros|].
  destruct HE as [_ ->].
  eapply runs_bind; [exact Hrun|]. apply runs_ret.
Qed.

Lemma update_B_vec_runs dt h :
  ∃ B', runs (update_B_vec dt h (Z.of_nat n1, Z.of_nat n2, Z.of_nat n3) lE lB)
          σ (fresh (dom σ)) (<[fresh (dom σ) := B']> σ)
        ∧ holds n1 n2 n3 (B_rhs (scalar_div dt h) E B) B'.
Proof.
  destruct (lattice_loops_run n1 n2 n3 (B_rhs (scalar_div dt h) E B)
              (update_B_point (scalar_div dt h) lE lB (fresh (dom σ)))
              σ (fresh (dom σ)) (zeros (3, n1, n2, n3)%nat))
    as (B' & Hrun & Hfill).
  { intros a i j k Ha Hi Hj Hk.
    by apply (update_B_point_runs σ lE lB _ E B n1 n2 n3);
      [..|apply fresh_lookup| | | | | |]. }
  { apply field_on_zeros. }
  exists B'. split; [|by apply filled_holds].
  unfold update_B_vec.
  eapply runs_bind; [by apply runs_np_shape|].
  eapply runs_bind; [apply runs_np_zeros|].
  destruct HB as [_ ->].
  eapply runs_bind; [exact Hrun|]. apply runs_ret.
Qed.

End updates.

(** ** What the updates leave in the store, whatever their outcome *)

Ltac preserves_steps :=
  repeat first
    [ apply preserves_getitem
    | apply preserves_setitem
    | apply preserves_ret
    | apply preserves_bind; [|intros ?] ].

Section frame.
Variables (σ : gmap loc ndarray) (l' : loc) (s : shape).

Lemma update_E_point_preserves d lE lB i j k :
  preserves (extends_at σ l' s) (update_E_point d lE lB l' i j k).
Proof. destruct d as [[d0 d1] d2]. unfold update_E_point. preserves_steps. Qed.

Lemma update_B_point_preserves d lE lB i j k :
  preserves (extends_at σ l' s) (update_B_point d lE lB l' i j k).
Proof. destruct d as [[d0 d1] d2]. unfold update_B_point. preserves_steps. Qed.

Lemma lattice_loops_preserves (body : Z → Z → Z → M unit) (N : Z * Z * Z) :
  (∀ i j k, preserves (extends_at σ l' s) (body i j k)) →
  preserves (extends_at σ l' s)
    (for_each (range N.1.1) (λ i,
       for_each (range N.1.2) (λ j,
         for_each (range N.2) (λ k, body i j k)))).
Proof.
  intros Hbody.
  apply preserves_for_each; intros i.
  apply preserves_for_each; intros j.
  apply preserves_for_each; intros k. apply Hbody.
Qed.

End frame.

Lemma update_E_vec_allocates dt h N lE lB σ :
  allocates_like lE σ (update_E_vec dt h N lE lB σ).
Proof.
  unfold allocates_like, update_E_vec. destruct N as [[N_0 N_1] N_2].
  destruct (σ !! lE) as [a|] eqn:Hl.
  - rewrite (bind_eq _ _ σ (shp a) σ) by (unfold np_shape; by rewrite Hl).
    rewrite (bind_eq _ _ σ (fresh (dom σ)) (<[fresh (dom σ) := zeros (shp a)]> σ))
      by done.
    cbn zeta.
    match goal with |- context [(?m ≫= _) ?τ] =>
      destruct (then_ret m (fresh (dom σ)) τ) as [-> Hret] end.
    split; [|exact Hret].
    apply (lattice_loops_preserves σ (fresh (dom σ)) (shp a)
      (update_E_point (scalar_div dt h) lE lB (fresh (dom σ))) (N_0, N_1, N_2)).
    + intros i j k. apply update_E_point_preserves.
    + by exists (zeros (shp a)).
  - apply bind_raise. unfold np_shape. by rewrite Hl.
Qed.

Lemma update_B_vec_allocates dt h N lE lB σ :
  allocates_like lB σ (update_B_vec dt h N lE lB σ).
Proof.
  unfold allocates_like, update_B_vec. destruct N as [[N_0 N_1] N_2].
  destruct (σ !! lB) as [a|] eqn:Hl.
  - rewrite (bind_eq _ _ σ (shp a) σ) by (unfold np_shape; by rewrite Hl).
    rewrite (bind_eq _ _ σ (fresh (dom σ)) (<[fresh (dom σ) := zeros (shp a)]> σ))
      by done.
    cbn zeta.
    match goal with |- context [(?m ≫= _) ?τ] =>
      destruct (then_ret m (fresh (dom σ)) τ) as [-> Hret] end.
    split; [|exact Hret].
    apply (lattice_loops_preserves σ (fresh (dom σ)) (shp a)
      (update_B_point (scalar_div dt h) lE lB (fresh (dom σ))) (N_0, N_1, N_2)).
    + intros i j k. apply update_B_point_preserves.
    + by exists (zeros (shp a)).
  - apply bind_raise. unfold np_shape. by rewrite Hl.
Qed.

Lemma extends_at_lookup σ l' s τ l :
  σ !! l' = None → extends_at σ l' s τ → is_Some (σ !! l) → τ !! l = σ !! l.
Proof.
  intros Hl' (a & -> & _) [b Hb].
  rewrite lookup_insert_ne; [done|]. congruence.
Qed.

(** * The properties of the specification *)

(** C1, amended: on fields [E], [B] of shape (3, N0, N1, N2), for every [dt]
    and [h], [update_E_vec] returns a new field [E'] with, at every lattice
    point, with [delta d = dt / h d] and periodic neighbours,
    [E'[x] = E[x] + (delta 1 * (B[z] - B[z] at j-1) - delta 2 * (B[y] - B[y] at k-1))],
    and the two cyclic analogues for the y and z components: the difference
    of the two products is formed first and then added to [E].  Every
    operation is the one of the arrays' arithmetic, whatever it is, and no
    law of arithmetic is used. *)
Theorem update_E_vec_formula (dt h0 h1 h2 : F) (n1 n2 n3 : nat)
    (σ : gmap loc ndarray) (lE lB : loc) (E B : ndarray) :
  σ !! lE = Some E → σ !! lB = Some B →
  field_on n1 n2 n3 E → field_on n1 n2 n3 B →
  ∃ l' E',
    update_E_vec dt (h0, h1, h2) (Z.of_nat n1, Z.of_nat n2, Z.of_nat n3) lE lB σ
    = (inr l', <[l' := E']> σ)
    ∧ field_on n1 n2 n3 E'
    ∧ ∀ i j k, 0 ≤ i < Z.of_nat n1 → 0 ≤ j < Z.of_nat n2 → 0 ≤ k < Z.of_nat n3 →
        get E' (0, i, j, k)
        = Some (periodic_get E 0 i j k
                + (dt / h1 * (periodic_get B 2 i j k - periodic_get B 2 i (j - 1) k)
                   - dt / h2 * (periodic_get B 1 i j k - periodic_get B 1 i j (k - 1))))%A
        ∧ get E' (1, i, j, k)
        = Some (periodic_get E 1 i j k
                + (dt / h2 * (periodic_get B 0 i j k - periodic_get B 0 i j (k - 1))
                   - dt / h0 * (periodic_get B 2 i j k - periodic_get B 2 (i - 1) j k)))%A
        ∧ get E' (2, i, j, k)
        = Some (periodic_get E 2 i j k
                + (dt / h0 * (periodic_get B 1 i j k - periodic_get B 1 (i - 1) j k)
                   - dt / h1 * (periodic_get B 0 i j k - periodic_get B 0 i (j - 1) k)))%A.
Proof.
  intros HlE HlB HE HB.
  destruct (update_E_vec_runs σ lE lB E B n1 n2 n3 HlE HlB HE HB dt (h0, h1, h2))
    as (E' & Hrun & Hf & Hv).
  exists (fresh (dom σ)), E'. split; [exact Hrun|]. split; [done|].
  intros i j k Hi Hj Hk.
  destruct (Hv 0%nat i j k) as [H0 _]; [lia|done..|].
  destruct (Hv 1%nat i j k) as [H1 _]; [lia|done..|].
  destruct (Hv 2%nat i j k) as [H2 _]; [lia|done..|].
  change (Z.of_nat 0) with 0 in H0. change (Z.of_nat 1) with 1 in H1.
  change (Z.of_nat 2) with 2 in H2.
  by rewrite H0, H1, H2.
Qed.

(** C2, amended: on fields [E], [B] of shape (3, N0, N1, N2), for every [dt]
    and [h], [update_B_vec] returns a new field [B'] with, at every lattice
    point,
    [B'[x] = B[x] - (delta 1 * (E[z] - E[z] at j-1) - delta 2 * (E[y] - E[y] at k-1))],
    and the two cyclic analogues for the y and z components: the difference
    of the two products is formed first and then subtracted from [B], in
    the arrays' arithmetic, whatever it is. *)
Theorem update_B_vec_formula (dt h0 h1 h2 : F) (n1 n2 n3 : nat)
    (σ : gmap loc ndarray) (lE lB : loc) (E B : ndarray) :
  σ !! lE = Some E → σ !! lB = Some B →
  field_on n1 n2 n3 E → field_on n1 n2 n3 B →
  ∃ l' B',
    update_B_vec dt (h0, h1, h2) (Z.of_nat n1, Z.of_nat n2, Z.of_nat n3) lE lB σ
    = (inr l', <[l' := B']> σ)
    ∧ field_on n1 n2 n3 B'
    ∧ ∀ i j k, 0 ≤ i < Z.of_nat n1 → 0 ≤ j < Z.of_nat n2 → 0 ≤ k < Z.of_nat n3 →
        get B' (0, i, j, k)
        = Some (periodic_get B 0 i j k
                - (dt / h1 * (periodic_get E 2 i j k - periodic_get E 2 i (j - 1) k)
                   - dt / h2 * (periodic_get E 1 i j k - periodic_get E 1 i j (k - 1))))%A
        ∧ get B' (1, i, j, k)
        = Some (periodic_get B 1 i j k
                - (dt / h2 * (periodic_get E 0 i j k - periodic_get E 0 i j (k - 1))
                   - dt / h0 * (periodic_get E 2 i j k - periodic_get E 2 (i - 1) j k)))%A
        ∧ get B' (2, i, j, k)
        = Some (periodic_get B 2 i j k
                - (dt / h0 * (periodic_get E 1 i j k - periodic_get E 1 (i - 1) j k)
                   - dt / h1 * (periodic_get E 0 i j k - periodic_get E 0 i (j - 1) k)))%A.
Proof.
  intros HlE HlB HE HB.
  destruct (update_B_vec_runs σ lE lB E B n1 n2 n3 HlE HlB HE HB dt (h0, h1, h2))
    as (B' & Hrun & Hf & Hv).
  exists (fresh (dom σ)), B'. split; [exact Hrun|]. split; [done|].
  intros i j k Hi Hj Hk.
  destruct (Hv 0%nat i j k) as [H0 _]; [lia|done..|].
  destruct (Hv 1%nat i j k) as [H1 _]; [lia|done..|].
  destruct (Hv 2%nat i j k) as [H2 _]; [lia|done..|].
  change (Z.of_nat 0) with 0 in H0. change (Z.of_nat 1) with 1 in H1.
  change (Z.of_nat 2) with 2 in H2.
  by rewrite H0, H1, H2.
Qed.

(** ** The time iteration *)

Lemma bind_assoc {A B C} (m : M A) (f : A → M B) (g : B → M C) σ :
  ((m ≫= f) ≫= g) σ = (m ≫= λ a, f a ≫= g) σ.
Proof. unfold mbind, M_bind. by destruct (m σ) as [[e|a] τ]. Qed.

Lemma bind_ext {A B} (m : M A) (f g : A → M B) σ :
  (∀ a τ, f a τ = g a τ) → (m ≫= f) σ = (m ≫= g) σ.
Proof. intros Hfg. unfold mbind, M_bind. by destruct (m σ) as [[e|a] τ]. Qed.

Lemma length_range (n : nat) : length (range (Z.of_nat n)) = n.
Proof. by rewrite range_of_nat, length_fmap, length_seq. Qed.

(** The loop of the notebook makes one step of the specification per
    element it ranges over. *)
Lemma for_each_st_leapfrog {A} dt h N (xs : list A) lE lB σ :
  for_each_st xs (lE, lB) (λ _ '(E_vec, B_vec),
    E_vec ← update_E_vec dt h N E_vec B_vec;
    B_vec ← update_B_vec dt h N E_vec B_vec;
    mret (E_vec, B_vec)) σ
  = leapfrog_steps dt h N (length xs) lE lB σ.
Proof.
  revert lE lB σ. induction xs as [|x xs IH]; intros lE lB σ; [done|].
  simpl. rewrite bind_assoc. apply bind_ext. intros E' τ.
  rewrite bind_assoc. apply bind_ext. intros B' υ.
  apply IH.
Qed.

Lemma time_iteration_steps dt h N (m : nat) lE lB σ :
  time_iteration dt h N (Z.of_nat m) lE lB σ = leapfrog_steps dt h N m lE lB σ.
Proof.
  unfold time_iteration. rewrite for_each_st_leapfrog. by rewrite length_range.
Qed.

(** On two fields of the lattice the [m] steps end normally, leave the
    store's arrays as they were, and return the fields of the leap-frog
    recurrence. *)
Lemma leapfrog_steps_runs dt h n1 n2 n3 (m : nat) σ lE lB E B :
  σ !! lE = Some E → σ !! lB = Some B →
  field_on n1 n2 n3 E → field_on n1 n2 n3 B →
  ∃ lE' lB' σ' E' B',
    runs (leapfrog_steps dt h (Z.of_nat n1, Z.of_nat n2, Z.of_nat n3) m lE lB)
      σ (lE', lB') σ'
    ∧ σ' !! lE' = Some E' ∧ σ' !! lB' = Some B'
    ∧ leapfrog_fields (scalar_div dt h) n1 n2 n3 m E B E' B'
    ∧ (∀ l, is_Some (σ !! l) → σ' !! l = σ !! l).
Proof.
  revert σ lE lB E B. induction m as [|m IH]; intros σ lE lB E B HlE HlB HE HB.
  - exists lE, lB, σ, E, B. split; [apply runs_ret|].
    split; [done|]. split; [done|]. split; [constructor|done].
  - destruct (update_E_vec_runs σ lE lB E B n1 n2 n3 HlE HlB HE HB dt h)
      as (E1 & HrunE & HE1).
    set (l1 := fresh (dom σ)) in *. set (σ1 := <[l1 := E1]> σ) in *.
    assert (σ !! l1 = None) as Hl1 by apply fresh_lookup.
    assert (σ1 !! l1 = Some E1) as Hl1' by apply lookup_insert_eq.
    assert (σ1 !! lB = Some B) as HlB'.
    { unfold σ1. rewrite lookup_insert_ne; [done|congruence]. }
    destruct (update_B_vec_runs σ1 l1 lB E1 B n1 n2 n3 Hl1' HlB' (proj1 HE1) HB dt h)
      as (B1 & HrunB & HB1).
    set (l2 := fresh (dom σ1)) in *. set (σ2 := <[l2 := B1]> σ1) in *.
    assert (σ1 !! l2 = None) as Hl2 by apply fresh_lookup.
    assert (σ2 !! l2 = Some B1) as Hl2' by apply lookup_insert_eq.
    assert (σ2 !! l1 = Some E1) as Hl1''.
    { unfold σ2. rewrite lookup_insert_ne; [done|congruence]. }
    destruct (IH σ2 l1 l2 E1 B1 Hl1'' Hl2' (proj1 HE1) (proj1 HB1))
      as (lE' & lB' & σ' & E' & B' & Hrun & HlE' & HlB'' & Hfields & Hframe).
    exists lE', lB', σ', E', B'.
    split; [|split; [done|split; [done|split]]].
    + simpl. eapply runs_bind; [exact HrunE|].
      eapply runs_bind; [exact HrunB|]. exact Hrun.
    + by eapply leapfrog_step.
    + intros l [a Hl].
      assert (σ1 !! l = Some a) as Hl'.
      { unfold σ1. rewrite lookup_insert_ne; [done|congruence]. }
      assert (σ2 !! l = Some a) as Hl''.
      { unfold σ2. rewrite lookup_insert_ne; [done|congruence]. }
      rewrite Hframe; [congruence|by eexists].
Qed.

(** C3: for every step count [m], the time iteration makes exactly [m]
    passes, each one the E-update followed by the B-update on the [E] that
    the same pass has just computed, and then returns the final pair: no
    pass leaves the fields as they are, one more pass is an E-update, a
    B-update on its result and the remaining passes, and on two fields of
    the lattice the iteration ends normally with the fields of the
    leap-frog recurrence. *)
Theorem time_iteration_leapfrog (dt : F) (h : vec3) (n1 n2 n3 : nat) (m : nat)
    (σ : gmap loc ndarray) (lE lB : loc) (E B : ndarray) :
  σ !! lE = Some E → σ !! lB = Some B →
  field_on n1 n2 n3 E → field_on n1 n2 n3 B →
  let N := (Z.of_nat n1, Z.of_nat n2, Z.of_nat n3) in
  time_iteration dt h N 0 lE lB σ = (inr (lE, lB), σ)
  ∧ time_iteration dt h N (Z.of_nat (S m)) lE lB σ
    = (E' ← update_E_vec dt h N lE lB;
       B' ← update_B_vec dt h N E' lB;
       time_iteration dt h N (Z.of_nat m) E' B') σ
  ∧ ∃ lE' lB' σ' E' B',
      time_iteration dt h N (Z.of_nat m) lE lB σ = (inr (lE', lB'), σ')
      ∧ σ' !! lE' = Some E' ∧ σ' !! lB' = Some B'
      ∧ leapfrog_fields (scalar_div dt h) n1 n2 n3 m E B E' B'.
Proof.
  intros HlE HlB HE HB N. split; [done|]. split.
  - rewrite time_iteration_steps. simpl.
    apply bind_ext. intros E' τ. apply bind_ext. intros B' υ.
    by rewrite time_iteration_steps.
  - destruct (leapfrog_steps_runs dt h n1 n2 n3 m σ lE lB E B HlE HlB HE HB)
      as (lE' & lB' & σ' & E' & B' & Hrun & HlE' & HlB' & Hfields & _).
    exists lE', lB', σ', E', B'. rewrite time_iteration_steps. done.
Qed.

(** ** Access to the field grid *)

(** C4, amended: element access accepts, on an axis of extent [n], the
    integers in [-n, n), and on these it is the lookup at the index reduced
    modulo [n]; an index of the size of a machine word outside this window
    is refused with [IndexError], not wrapped; in particular, on every axis,
    the index -1 reads the same entry as the index [n - 1]. *)
Theorem getitem_periodic_window (a : ndarray) (n1 n2 n3 : nat) (c : nat) (i j k : Z) :
  field_on n1 n2 n3 a → (c < 3)%nat →
  (- Z.of_nat n1 ≤ i < Z.of_nat n1 →
   - Z.of_nat n2 ≤ j < Z.of_nat n2 →
   - Z.of_nat n3 ≤ k < Z.of_nat n3 →
   get a (Z.of_nat c, i, j, k)
   = get a (Z.of_nat c, i mod Z.of_nat n1, j mod Z.of_nat n2, k mod Z.of_nat n3)
   ∧ get a (Z.of_nat c, i, j, k) = Some (periodic_get a c i j k))
  ∧ (index_sized i → index_sized j → index_sized k →
     ¬ (- Z.of_nat n1 ≤ i < Z.of_nat n1
        ∧ - Z.of_nat n2 ≤ j < Z.of_nat n2
        ∧ - Z.of_nat n3 ≤ k < Z.of_nat n3) →
     ∀ l σ, σ !! l = Some a → getitem l (Z.of_nat c, i, j, k) σ = (inl IndexError, σ))
  ∧ get a (Z.of_nat c, -1, j, k) = get a (Z.of_nat c, Z.of_nat n1 - 1, j, k)
  ∧ get a (Z.of_nat c, i, -1, k) = get a (Z.of_nat c, i, Z.of_nat n2 - 1, k)
  ∧ get a (Z.of_nat c, i, j, -1) = get a (Z.of_nat c, i, j, Z.of_nat n3 - 1).
Proof.
  intros [Hwf Hs] Hc.
  assert (∀ n, norm_index n (-1) = norm_index n (Z.of_nat n - 1)) as Hm1.
  { intros n. unfold norm_index.
    repeat case_decide; try lia; [f_equal; lia|done]. }
  split; [|split; [|split; [|split]]].
  - intros Hi Hj Hk.
    pose proof (Z.mod_pos_bound i (Z.of_nat n1)).
    pose proof (Z.mod_pos_bound j (Z.of_nat n2)).
    pose proof (Z.mod_pos_bound k (Z.of_nat n3)).
    rewrite (get_periodic a 3 n1 n2 n3 c i j k) by (done || lia).
    rewrite (get_periodic a 3 n1 n2 n3 c (i mod Z.of_nat n1)) by (done || lia).
    split; [|done]. f_equal. unfold periodic_get. rewrite Hs. unfold wrap.
    by rewrite !Zmod_mod.
  - intros _ _ _ Hout l σ Hl. unfold getitem. rewrite Hl.
    assert (get a (Z.of_nat c, i, j, k) = None) as ->; [|done].
    unfold get, flat_index. rewrite Hs.
    rewrite (norm_index_nonneg 3 (Z.of_nat c)) by lia. simpl.
    destruct (decide (- Z.of_nat n1 ≤ i < Z.of_nat n1)) as [Hi|Hi];
      [|by rewrite (norm_index_None n1 i) by lia].
    rewrite (norm_index_wrap n1 i) by done. simpl.
    destruct (decide (- Z.of_nat n2 ≤ j < Z.of_nat n2)) as [Hj|Hj];
      [|by rewrite (norm_index_None n2 j) by lia].
    rewrite (norm_index_wrap n2 j) by done. simpl.
    by rewrite (norm_index_None n3 k) by lia.
  - unfold get, flat_index. rewrite Hs. by rewrite Hm1.
  - unfold get, flat_index. rewrite Hs. by rewrite Hm1.
  - unfold get, flat_index. rewrite Hs. by rewrite Hm1.
Qed.

(** ** The exceptions of the updates *)

Lemma raises_ret {A} J (a : A) : raises_index_only J (mret a : M A).
Proof. by intros σ e _. Qed.

Lemma raises_bind {A B} J (m : M A) (k : A → M B) :
  raises_index_only J m → preserves J m → (∀ a, raises_index_only J (k a)) →
  raises_index_only J (m ≫= k).
Proof.
  intros Hm Hp Hk σ e HJ. specialize (Hm σ e HJ). specialize (Hp σ HJ).
  unfold mbind, M_bind. destruct (m σ) as [[e'|a] τ]; simpl in *.
  - intros [= <-]. by apply Hm.
  - by apply Hk.
Qed.

Lemma raises_for_each {A} J (xs : list A) (body : A → M unit) :
  (∀ x, raises_index_only J (body x)) → (∀ x, preserves J (body x)) →
  raises_index_only J (for_each xs body).
Proof.
  intros Hr Hp. induction xs as [|x xs IH]; simpl.
  - apply raises_ret.
  - apply raises_bind; [apply Hr|apply Hp|]. by intros _.
Qed.

Lemma raises_getitem (J : gmap loc ndarray → Prop) l idx :
  (∀ σ, J σ → is_Some (σ !! l)) → raises_index_only J (getitem l idx).
Proof.
  intros Hlive σ e HJ. destruct (Hlive σ HJ) as [a Ha].
  unfold getitem. rewrite Ha. destruct (get a idx); simpl; congruence.
Qed.

Lemma raises_setitem (J : gmap loc ndarray → Prop) l idx v :
  (∀ σ, J σ → is_Some (σ !! l)) → raises_index_only J (setitem l idx v).
Proof.
  intros Hlive σ e HJ. destruct (Hlive σ HJ) as [a Ha].
  unfold setitem. rewrite Ha. destruct (set a idx v); simpl; congruence.
Qed.

Lemma extends_at_live σ l' s τ l :
  is_Some (σ !! l) ∨ l = l' → extends_at σ l' s τ → is_Some (τ !! l).
Proof.
  intros Hl (a & -> & _). destruct (decide (l' = l)) as [->|Hne].
  - rewrite lookup_insert_eq. by eexists.
  - rewrite lookup_insert_ne by done. by destruct Hl.
Qed.

Ltac raises_steps :=
  repeat first
    [ apply raises_getitem; intros ?; apply extends_at_live; by auto
    | apply raises_setitem; intros ?; apply extends_at_live; by auto
    | apply preserves_getitem
    | apply raises_bind; [| |intros ?] ].

Lemma update_E_point_raises σ l' s d lE lB i j k :
  is_Some (σ !! lE) → is_Some (σ !! lB) →
  raises_index_only (extends_at σ l' s) (update_E_point d lE lB l' i j k).
Proof.
  intros HlE HlB. destruct d as [[d0 d1] d2]. unfold update_E_point.
  raises_steps; preserves_steps.
Qed.

Lemma update_B_point_raises σ l' s d lE lB i j k :
  is_Some (σ !! lE) → is_Some (σ !! lB) →
  raises_index_only (extends_at σ l' s) (update_B_point d lE lB l' i j k).
Proof.
  intros HlE HlB. destruct d as [[d0 d1] d2]. unfold update_B_point.
  raises_steps; preserves_steps.
Qed.

Lemma lattice_loops_raises σ l' s (body : Z → Z → Z → M unit) (N : Z * Z * Z) :
  (∀ i j k, raises_index_only (extends_at σ l' s) (body i j k)) →
  (∀ i j k, preserves (extends_at σ l' s) (body i j k)) →
  raises_index_only (extends_at σ l' s)
    (for_each (range N.1.1) (λ i,
       for_each (range N.1.2) (λ j,
         for_each (range N.2) (λ k, body i j k)))).
Proof.
  intros Hr Hp.
  apply raises_for_each; intros i.
  - apply raises_for_each; intros j.
    + apply raises_for_each; intros k; [apply Hr|apply Hp].
    + apply preserves_for_each; intros k. apply Hp.
  - apply preserves_for_each; intros j.
    apply preserves_for_each; intros k. apply Hp.
Qed.

Lemma then_ret_raise {A B} (m : M A) (b : B) σ e :
  ((m ≫= λ _, mret b) σ).1 = inl e → (m σ).1 = inl e.
Proof.
  unfold mbind, M_bind. destruct (m σ) as [[e'|a] τ]; simpl; [|done].
  by intros [= ->].
Qed.

Lemma update_E_vec_raises dt h N lE lB σ e :
  is_Some (σ !! lE) → is_Some (σ !! lB) →
  (update_E_vec dt h N lE lB σ).1 = inl e → e = IndexError.
Proof.
  intros [a Hl] HlB. unfold update_E_vec. destruct N as [[N_0 N_1] N_2].
  rewrite (bind_eq _ _ σ (shp a) σ) by (unfold np_shape; by rewrite Hl).
  rewrite (bind_eq _ _ σ (fresh (dom σ)) (<[fresh (dom σ) := zeros (shp a)]> σ))
    by done.
  cbn zeta. intros Hraise. apply then_ret_raise in Hraise. revert Hraise.
  apply (lattice_loops_raises σ (fresh (dom σ)) (shp a)
    (update_E_point (scalar_div dt h) lE lB (fresh (dom σ))) (N_0, N_1, N_2)).
  - intros i j k. apply update_E_point_raises; [by eexists|done].
  - intros i j k. apply update_E_point_preserves.
  - by exists (zeros (shp a)).
Qed.

Lemma update_B_vec_raises dt h N lE lB σ e :
  is_Some (σ !! lE) → is_Some (σ !! lB) →
  (update_B_vec dt h N lE lB σ).1 = inl e → e = IndexError.
Proof.
  intros HlE [a Hl]. unfold update_B_vec. destruct N as [[N_0 N_1] N_2].
  rewrite (bind_eq _ _ σ (shp a) σ) by (unfold np_shape; by rewrite Hl).
  rewrite (bind_eq _ _ σ (fresh (dom σ)) (<[fresh (dom σ) := zeros (shp a)]> σ))
    by done.
  cbn zeta. intros Hraise. apply then_ret_raise in Hraise. revert Hraise.
  apply (lattice_loops_raises σ (fresh (dom σ)) (shp a)
    (update_B_point (scalar_div dt h) lE lB (fresh (dom σ))) (N_0, N_1, N_2)).
  - intros i j k. apply update_B_point_raises; [done|by eexists].
  - intros i j k. apply update_B_point_preserves.
  - by exists (zeros (shp a)).
Qed.

(** C5, amended: [update_E_vec] checks none of its arguments.  For every
    [dt] and [h], whatever their signs, it returns a new field when [E] and
    [B] are fields on the lattice [N]; and whatever [N] and the shapes of
    [E] and [B], when it fails it does so with numpy's [IndexError], raised
    by an access of the traversal, after the output array has been
    allocated. *)
Theorem update_E_vec_unchecked (dt : F) (h : vec3) (σ : gmap loc ndarray)
    (lE lB : loc) (E B : ndarray) :
  σ !! lE = Some E → σ !! lB = Some B →
  (∀ n1 n2 n3, field_on n1 n2 n3 E → field_on n1 n2 n3 B →
     ∃ l' E',
       update_E_vec dt h (Z.of_nat n1, Z.of_nat n2, Z.of_nat n3) lE lB σ
       = (inr l', <[l' := E']> σ)
       ∧ field_on n1 n2 n3 E')
  ∧ (∀ N e τ,
       update_E_vec dt h N lE lB σ = (inl e, τ) →
       e = IndexError
       ∧ ∃ a, τ = <[fresh (dom σ) := a]> σ ∧ shp a = shp E).
Proof.
  intros HlE HlB. split.
  - intros n1 n2 n3 HE HB.
    destruct (update_E_vec_runs σ lE lB E B n1 n2 n3 HlE HlB HE HB dt h)
      as (E' & Hrun & Hf & _).
    by exists (fresh (dom σ)), E'.
  - intros N e τ Hfail. split.
    + apply (update_E_vec_raises dt h N lE lB σ); [by eexists..|].
      by rewrite Hfail.
    + pose proof (update_E_vec_allocates dt h N lE lB σ) as Ha.
      unfold allocates_like in Ha. rewrite HlE, Hfail in Ha.
      by destruct Ha as [Ha _].
Qed.

(** ** Linearity *)


Lemma periodic_get_mod a n0 n1 n2 n3 c i j k :
  shp a = (n0, n1, n2, n3) →
  periodic_get a c i j k
  = periodic_get a c (i mod Z.of_nat n1) (j mod Z.of_nat n2) (k mod Z.of_nat n3).
Proof.
  intros Hs. unfold periodic_get. rewrite Hs. unfold wrap. by rewrite !Zmod_mod.
Qed.

Lemma zero_on_everywhere n1 n2 n3 a c i j k :
  field_on n1 n2 n3 a → zero_on n1 n2 n3 a →
  (c < 3)%nat → (0 < n1)%nat → (0 < n2)%nat → (0 < n3)%nat →
  periodic_get a c i j k = 0%A.
Proof.
  intros [_ Hs] Hz Hc H1 H2 H3.
  rewrite (periodic_get_mod a 3 n1 n2 n3) by done.
  apply Hz; [done|apply Z.mod_pos_bound; lia..].
Qed.

Lemma periodic_get_zeros s c i j k : periodic_get (zeros s) c i j k = 0%A.
Proof.
  destruct s as [[[n0 n1] n2] n3]. unfold periodic_get, zeros. cbn [shp data].
  destruct (replicate _ _ !! _) as [v|] eqn:Hv; [|done].
  by apply lookup_replicate in Hv as [-> _].
Qed.

Lemma zero_on_zeros n1 n2 n3 s : zero_on n1 n2 n3 (zeros s).
Proof. intros c i j k _ _ _ _. apply periodic_get_zeros. Qed.

Ltac each_component c := destruct c as [|[|[|c]]]; [| | |lia].

(** In exact arithmetic the increments of the two updates are homogeneous
    in the fields. *)
Section exact.
Variables (one : F) (opp : F → F).
Hypothesis Hring : ring_theory 0%A one fadd fmul fsub opp eq.

Add Ring carrier_ring : Hring.




End exact.

(** On zero fields the right-hand sides are zero as soon as the factors
    [d] give zero when multiplied by zero: no other law is needed. *)
Lemma E_rhs_zero d n1 n2 n3 E B i j k comp :
  absorbs_zero d →
  field_on n1 n2 n3 E → field_on n1 n2 n3 B →
  zero_on n1 n2 n3 E → zero_on n1 n2 n3 B →
  (comp < 3)%nat → (0 < n1)%nat → (0 < n2)%nat → (0 < n3)%nat →
  E_rhs d E B i j k comp = 0%A.
Proof.
  intros Hd HE HB HzE HzB Hc H1 H2 H3. destruct d as [[d0 d1] d2].
  destruct Hd as (Hd0 & Hd1 & Hd2 & Hadd & Hsub).
  each_component comp; simpl;
    rewrite !(zero_on_everywhere n1 n2 n3 E) by (done || lia);
    rewrite !(zero_on_everywhere n1 n2 n3 B) by (done || lia);
    rewrite Hsub, ?Hd0, ?Hd1, ?Hd2, Hsub; exact Hadd.
Qed.

Lemma B_rhs_zero d n1 n2 n3 E B i j k comp :
  absorbs_zero d →
  field_on n1 n2 n3 E → field_on n1 n2 n3 B →
  zero_on n1 n2 n3 E → zero_on n1 n2 n3 B →
  (comp < 3)%nat → (0 < n1)%nat → (0 < n2)%nat → (0 < n3)%nat →
  B_rhs d E B i j k comp = 0%A.
Proof.
  intros Hd HE HB HzE HzB Hc H1 H2 H3. destruct d as [[d0 d1] d2].
  destruct Hd as (Hd0 & Hd1 & Hd2 & Hadd & Hsub).
  each_component comp; simpl;
    rewrite !(zero_on_everywhere n1 n2 n3 E) by (done || lia);
    rewrite !(zero_on_everywhere n1 n2 n3 B) by (done || lia);
    rewrite Hsub, ?Hd0, ?Hd1, ?Hd2, Hsub; exact Hsub.
Qed.

(** The leap-frog recurrence keeps zero fields zero, when the factors [d]
    give zero when multiplied by zero. *)
Lemma leapfrog_fields_zero d n1 n2 n3 m E B E' B' :
  absorbs_zero d →
  leapfrog_fields d n1 n2 n3 m E B E' B' →
  field_on n1 n2 n3 E → field_on n1 n2 n3 B →
  zero_on n1 n2 n3 E → zero_on n1 n2 n3 B →
  zero_on n1 n2 n3 E' ∧ zero_on n1 n2 n3 B'.
Proof.
  intros Hd Hfields.
  induction Hfields as [|m E B E1 B1 E' B' HE1 HB1 Hrest IH]; [done|].
  intros HE HB HzE HzB.
  assert (zero_on n1 n2 n3 E1) as HzE1.
  { intros comp i j k Hc Hi Hj Hk.
    destruct HE1 as [_ Hv]. destruct (Hv comp i j k) as [_ ->]; [done..|].
    apply (E_rhs_zero _ n1 n2 n3); (done || lia). }
  apply IH; [apply HE1|apply HB1|done|].
  intros comp i j k Hc Hi Hj Hk.
  destruct HB1 as [_ Hv]. destruct (Hv comp i j k) as [_ ->]; [done..|].
  apply (B_rhs_zero _ n1 n2 n3); (done || lia || apply HE1).
Qed.

(** The time iteration on zero fields, when the factors [dt / h] give zero
    when multiplied by zero. *)
Lemma zero_fields_fixed dt h n1 n2 n3 (m : nat) σ lE lB E B :
  absorbs_zero (scalar_div dt h) →
  σ !! lE = Some E → σ !! lB = Some B →
  field_on n1 n2 n3 E → field_on n1 n2 n3 B →
  zero_on n1 n2 n3 E → zero_on n1 n2 n3 B →
  ∃ lE' lB' σ' E' B',
    time_iteration dt h (Z.of_nat n1, Z.of_nat n2, Z.of_nat n3) (Z.of_nat m) lE lB σ
    = (inr (lE', lB'), σ')
    ∧ σ' !! lE' = Some E' ∧ σ' !! lB' = Some B'
    ∧ field_on n1 n2 n3 E' ∧ field_on n1 n2 n3 B'
    ∧ zero_on n1 n2 n3 E' ∧ zero_on n1 n2 n3 B'.
Proof.
  intros Hd HlE HlB HE HB HzE HzB.
  destruct (leapfrog_steps_runs dt h n1 n2 n3 m σ lE lB E B HlE HlB HE HB)
    as (lE' & lB' & σ' & E' & B' & Hrun & HlE' & HlB' & Hfields & _).
  exists lE', lB', σ', E', B'.
  split; [exact (eq_trans (time_iteration_steps dt h _ m lE lB σ) Hrun)|].
  split; [done|]. split; [done|].
  destruct (leapfrog_fields_zero _ n1 n2 n3 m E B E' B' Hd Hfields HE HB HzE HzB)
    as [HzE' HzB'].
  assert (field_on n1 n2 n3 E' ∧ field_on n1 n2 n3 B') as [HE' HB'].
  { clear HzE HzB HzE' HzB' Hrun HlE HlB HlE' HlB'.
    induction Hfields as [|m E B E1 B1 E' B' HE1 HB1 Hrest IH]; [done|].
    apply IH; [apply HE1|apply HB1]. }
  done.
Qed.


(** ** The updates do not touch their arguments *)

(** C8: the two updates write only into an array they allocate themselves:
    whatever the arguments and the outcome of the call, every array of the
    store before the call, the inputs [E] and [B] among them, is unchanged
    after it, and the array returned is a new one with the shape of the
    input field ([E] for [update_E_vec], [B] for [update_B_vec]). *)
Theorem updates_pure (dt : F) (h : vec3) (N : Z * Z * Z)
    (σ : gmap loc ndarray) (lE lB : loc) (E B : ndarray) :
  σ !! lE = Some E → σ !! lB = Some B →
  let rE := update_E_vec dt h N lE lB σ in
  let rB := update_B_vec dt h N lE lB σ in
  (rE.2 !! lE = Some E ∧ rE.2 !! lB = Some B
   ∧ (∀ l, is_Some (σ !! l) → rE.2 !! l = σ !! l)
   ∧ ∀ l', rE.1 = inr l' →
       σ !! l' = None ∧ ∃ E', rE.2 !! l' = Some E' ∧ shp E' = shp E)
  ∧ (rB.2 !! lE = Some E ∧ rB.2 !! lB = Some B
     ∧ (∀ l, is_Some (σ !! l) → rB.2 !! l = σ !! l)
     ∧ ∀ l', rB.1 = inr l' →
         σ !! l' = None ∧ ∃ B', rB.2 !! l' = Some B' ∧ shp B' = shp B).
Proof.
  intros HlE HlB rE rB.
  pose proof (update_E_vec_allocates dt h N lE lB σ) as HaE.
  pose proof (update_B_vec_allocates dt h N lE lB σ) as HaB.
  unfold allocates_like in HaE, HaB. rewrite HlE in HaE. rewrite HlB in HaB.
  fold rE in HaE. fold rB in HaB.
  destruct HaE as [HextE HretE], HaB as [HextB HretB].
  pose proof (fresh_lookup σ) as Hfresh.
  assert (∀ s τ l, extends_at σ (fresh (dom σ)) s τ →
            is_Some (σ !! l) → τ !! l = σ !! l) as Hframe.
  { intros s τ l Hext Hl. by eapply extends_at_lookup. }
  split.
  - split; [by rewrite (Hframe _ _ lE HextE), HlE|].
    split; [by rewrite (Hframe _ _ lB HextE), HlB|].
    split; [intros l; by apply Hframe with (shp E)|].
    intros l' Hl'. apply HretE in Hl' as ->. split; [done|].
    destruct HextE as (a & -> & Hs). exists a. by rewrite lookup_insert_eq.
  - split; [by rewrite (Hframe _ _ lE HextB), HlE|].
    split; [by rewrite (Hframe _ _ lB HextB), HlB|].
    split; [intros l; by apply Hframe with (shp B)|].
    intros l' Hl'. apply HretB in Hl' as ->. split; [done|].
    destruct HextB as (a & -> & Hs). exists a. by rewrite lookup_insert_eq.
Qed.

(** * Further properties of the code *)

(** ** The loops on arrays larger than the lattice *)

Section within.
Variables (e0 e1 e2 e3 n1 n2 n3 : nat).
Variable V : Z → Z → Z → nat → F.
Hypothesis Hroom : room n1 n2 n3 (e0, e1, e2, e3).

Lemma filled_within_weaken (P Q : nat → nat → nat → Prop) a :
  (∀ i j k, (i < n1)%nat → (j < n2)%nat → (k < n3)%nat → Q i j k → P i j k) →
  filled_within (e0, e1, e2, e3) n1 n2 n3 V P a →
  filled_within (e0, e1, e2, e3) n1 n2 n3 V Q a.
Proof.
  intros HQP (Hwf & Hs & Hv & Hz). split; [done|]. split; [done|].
  split; [|done]. intros; apply Hv; auto.
Qed.

Lemma filled_within_zeros :
  filled_within (e0, e1, e2, e3) n1 n2 n3 V (λ _ _ _, False) (zeros (e0, e1, e2, e3)).
Proof.
  split; [|split; [done|split; [done|]]].
  - unfold wf, zeros. simpl. by rewrite length_replicate.
  - intros c i j k Hc Hi Hj Hk _. unfold zeros. cbn [data].
    apply lookup_replicate_2. by apply offset_lt.
Qed.

Lemma filled_within_write_point (P : nat → nat → nat → Prop) a i j k :
  (i < n1)%nat → (j < n2)%nat → (k < n3)%nat →
  filled_within (e0, e1, e2, e3) n1 n2 n3 V P a →
  filled_within (e0, e1, e2, e3) n1 n2 n3 V
    (λ i' j' k', P i' j' k' ∨ (i' = i ∧ j' = j ∧ k' = k))
    (write_point (V (Z.of_nat i) (Z.of_nat j) (Z.of_nat k)) a i j k).
Proof.
  intros Hi Hj Hk (Hwf & Hs & Hv & Hz). destruct Hroom as (H0 & H1 & H2 & H3).
  assert (∀ c', (c' < 3)%nat →
    (offset (e0, e1, e2, e3) c' i j k < length (data a))%nat) as Hlen.
  { intros c' Hc'. rewrite Hwf, Hs. apply offset_lt; lia. }
  assert (∀ c c' i' j' k', (i' < e1)%nat → (j' < e2)%nat → (k' < e3)%nat →
    (c' = c ∧ i = i' ∧ j = j' ∧ k = k') ∨
    offset (e0, e1, e2, e3) c' i j k ≠ offset (e0, e1, e2, e3) c i' j' k')
    as Hcase.
  { intros c c' i' j' k' Hi' Hj' Hk'.
    destruct (decide (offset (e0, e1, e2, e3) c' i j k
                      = offset (e0, e1, e2, e3) c i' j' k')) as [Heq|]; [|by right].
    left. apply offset_inj in Heq; [done|lia..]. }
  split; [|split; [done|split]].
  - unfold wf, write_point. simpl. by rewrite !length_insert.
  - intros c i' j' k' Hc Hi' Hj' Hk' HP.
    unfold write_point. simpl. rewrite Hs.
    destruct (Hcase c 2%nat i' j' k') as [(<- & <- & <- & <-)|Hne2]; [lia..| |].
    { rewrite list_lookup_insert_eq; [done|]. rewrite !length_insert. by apply Hlen. }
    rewrite list_lookup_insert_ne by done.
    destruct (Hcase c 1%nat i' j' k') as [(<- & <- & <- & <-)|Hne1]; [lia..| |].
    { rewrite list_lookup_insert_eq; [done|]. rewrite !length_insert. apply Hlen. lia. }
    rewrite list_lookup_insert_ne by done.
    destruct (Hcase c 0%nat i' j' k') as [(<- & <- & <- & <-)|Hne0]; [lia..| |].
    { rewrite list_lookup_insert_eq; [done|]. apply Hlen. lia. }
    rewrite list_lookup_insert_ne by done.
    destruct HP as [HP|(-> & -> & ->)]; [by apply Hv|].
    assert (c < 3)%nat as Hc3 by done.
    destruct c as [|[|[|c]]]; [done|done|done|lia].
  - intros c i' j' k' Hc Hi' Hj' Hk' Hout.
    unfold write_point. simpl. rewrite Hs. simpl in Hc, Hi', Hj', Hk'.
    destruct (Hcase c 2%nat i' j' k') as [(<- & <- & <- & <-)|Hne2]; [lia..| |].
    { destruct Hout. lia. }
    rewrite list_lookup_insert_ne by done.
    destruct (Hcase c 1%nat i' j' k') as [(<- & <- & <- & <-)|Hne1]; [lia..| |].
    { destruct Hout. lia. }
    rewrite list_lookup_insert_ne by done.
    destruct (Hcase c 0%nat i' j' k') as [(<- & <- & <- & <-)|Hne0]; [lia..| |].
    { destruct Hout. lia. }
    rewrite list_lookup_insert_ne by done.
    by apply Hz.
Qed.

(** The three nested loops over the lattice, run on an output array that
    has room for it. *)
Lemma lattice_loops_run_within (body : Z → Z → Z → M unit) σ l' :
  (∀ a i j k, wf a → shp a = (e0, e1, e2, e3) →
     (i < n1)%nat → (j < n2)%nat → (k < n3)%nat →
     runs (body (Z.of_nat i) (Z.of_nat j) (Z.of_nat k)) (<[l' := a]> σ) ()
       (<[l' := write_point (V (Z.of_nat i) (Z.of_nat j) (Z.of_nat k)) a i j k]> σ)) →
  ∃ a', runs (for_each (range (Z.of_nat n1)) (λ i,
                for_each (range (Z.of_nat n2)) (λ j,
                  for_each (range (Z.of_nat n3)) (λ k, body i j k))))
          (<[l' := zeros (e0, e1, e2, e3)]> σ) () (<[l' := a']> σ)
        ∧ filled_within (e0, e1, e2, e3) n1 n2 n3 V (λ _ _ _, True) a'.
Proof.
  intros Hbody.
  pose (I1 := λ (x : nat) (τ : gmap loc ndarray),
    ∃ a, τ = <[l' := a]> σ
         ∧ filled_within (e0, e1, e2, e3) n1 n2 n3 V (λ i _ _, (i < x)%nat) a).
  destruct (for_range_inv I1 (λ i,
              for_each (range (Z.of_nat n2)) (λ j,
                for_each (range (Z.of_nat n3)) (λ k, body i j k)))
            n1 (<[l' := zeros (e0, e1, e2, e3)]> σ)) as (τ & Hrun & a' & -> & Hfill).
  { eexists. split; [done|].
    eapply filled_within_weaken; [|apply filled_within_zeros]. simpl. intros; lia. }
  { intros x τ Hx (a & -> & Ha).
    pose (I2 := λ (y : nat) (τ : gmap loc ndarray),
      ∃ a, τ = <[l' := a]> σ
           ∧ filled_within (e0, e1, e2, e3) n1 n2 n3 V
               (λ i j _, (i < x)%nat ∨ (i = x ∧ j < y)%nat) a).
    destruct (for_range_inv I2 (λ j,
                for_each (range (Z.of_nat n3)) (λ k, body (Z.of_nat x) j k))
              n2 (<[l' := a]> σ)) as (τ & Hrun & a' & -> & Hfill).
    { exists a. split; [done|]. eapply filled_within_weaken; [|exact Ha].
      simpl. intros; lia. }
    { intros y τ Hy (b & -> & Hb).
      pose (I3 := λ (z : nat) (τ : gmap loc ndarray),
        ∃ a, τ = <[l' := a]> σ
             ∧ filled_within (e0, e1, e2, e3) n1 n2 n3 V
                 (λ i j k, (i < x)%nat ∨ (i = x ∧ j < y)%nat
                           ∨ (i = x ∧ j = y ∧ k < z)%nat) a).
      destruct (for_range_inv I3 (λ k, body (Z.of_nat x) (Z.of_nat y) k)
                n3 (<[l' := b]> σ)) as (τ & Hrun & a' & -> & Hfill).
      { exists b. split; [done|]. eapply filled_within_weaken; [|exact Hb].
        simpl. intros; lia. }
      { intros z τ Hz (c & -> & Hc).
        eexists. split; [apply Hbody; [apply Hc|apply Hc|done..]|].
        eexists. split; [done|].
        eapply filled_within_weaken;
          [|apply filled_within_write_point; [..|exact Hc]; done].
        simpl. intros; lia. }
      exists (<[l' := a']> σ). split; [done|]. exists a'. split; [done|].
      eapply filled_within_weaken; [|exact Hfill]. simpl. intros; lia. }
    exists (<[l' := a']> σ). split; [done|]. exists a'. split; [done|].
    eapply filled_within_weaken; [|exact Hfill]. simpl. intros; lia. }
  exists a'. split; [done|].
  eapply filled_within_weaken; [|exact Hfill]. simpl. intros; lia.
Qed.

Lemma filled_within_holds a :
  filled_within (e0, e1, e2, e3) n1 n2 n3 V (λ _ _ _, True) a →
  holds_within (e0, e1, e2, e3) n1 n2 n3 V a.
Proof.
  intros (Hwf & Hs & Hv & Hz). split; [done|]. split; [done|].
  simpl. intros c i j k Hc Hi Hj Hk.
  rewrite (get_periodic a e0 e1 e2 e3) by (done || lia).
  f_equal. unfold periodic_get. rewrite Hs. rewrite !wrap_nonneg by done.
  case_decide as Hin.
  - destruct Hin as (Hc3 & Hi' & Hj' & Hk').
    specialize (Hv c (Z.to_nat i) (Z.to_nat j) (Z.to_nat k)).
    rewrite !Z2Nat.id in Hv by lia. rewrite Hv; [done|lia..].
  - rewrite Hz; [done|simpl; lia..|]. unfold assigned in Hin. lia.
Qed.

End within.

(** Steps through a read and a write when the arrays are only known to have
    room for the lattice. *)
Ltac read_within X c :=
  eapply runs_bind;
  [ eapply runs_getitem;
    [ eassumption
    | eassumption
    | eapply (get_periodic X _ _ _ _ c); [done | eassumption | lia | lia | lia | lia] ]
  | ].

Ltac write_within c :=
  eapply runs_setitem;
  eapply (set_lattice _ _ _ _ _ c); [ | eassumption | lia | lia | lia | lia].

Section point_within.
Variables (σ : gmap loc ndarray) (lE lB l' : loc) (E B : ndarray).
Variables (n1 n2 n3 : nat).
Hypothesis HlE : σ !! lE = Some E.
Hypothesis HlB : σ !! lB = Some B.
Hypothesis Hl' : σ !! l' = None.
Hypothesis HE : covers n1 n2 n3 E.
Hypothesis HB : covers n1 n2 n3 B.

Lemma update_E_point_runs_within d a i j k :
  wf a → shp a = shp E → (i < n1)%nat → (j < n2)%nat → (k < n3)%nat →
  runs (update_E_point d lE lB l' (Z.of_nat i) (Z.of_nat j) (Z.of_nat k))
    (<[l' := a]> σ) ()
    (<[l' := write_point
               (E_rhs d E B (Z.of_nat i) (Z.of_nat j) (Z.of_nat k)) a i j k]> σ).
Proof.
  intros Hwf Hs Hi Hj Hk.
  destruct HE as [HwfE HrE], HB as [HwfB HrB].
  destruct (shp E) as [[[e0 e1] e2] e3] eqn:HsE.
  destruct (shp B) as [[[b0 b1] b2] b3] eqn:HsB.
  destruct HrE as (? & ? & ? & ?), HrB as (? & ? & ? & ?).
  destruct d as [[d0 d1] d2]. unfold update_E_point, write_point, E_rhs.
  eapply runs_post.
  { eapply runs_bind.
    { read_within E 0%nat. read_within B 2%nat. read_within B 2%nat.
      read_within B 1%nat. read_within B 1%nat. write_within 0%nat. done. }
    eapply runs_bind.
    { read_within E 1%nat. read_within B 0%nat. read_within B 0%nat.
      read_within B 2%nat. read_within B 2%nat. write_within 1%nat.
      by apply wf_insert. }
    read_within E 2%nat. read_within B 1%nat. read_within B 1%nat.
    read_within B 0%nat. read_within B 0%nat. write_within 2%nat.
    by apply wf_insert, wf_insert. }
  reflexivity.
Qed.

Lemma update_B_point_runs_within d a i j k :
  wf a → shp a = shp B → (i < n1)%nat → (j < n2)%nat → (k < n3)%nat →
  runs (update_B_point d lE lB l' (Z.of_nat i) (Z.of_nat j) (Z.of_nat k))
    (<[l' := a]> σ) ()
    (<[l' := write_point
               (B_rhs d E B (Z.of_nat i) (Z.of_nat j) (Z.of_nat k)) a i j k]> σ).
Proof.
  intros Hwf Hs Hi Hj Hk.
  destruct HE as [HwfE HrE], HB as [HwfB HrB].
  destruct (shp E) as [[[e0 e1] e2] e3] eqn:HsE.
  destruct (shp B) as [[[b0 b1] b2] b3] eqn:HsB.
  destruct HrE as (? & ? & ? & ?), HrB as (? & ? & ? & ?).
  destruct d as [[d0 d1] d2]. unfold update_B_point, write_point, B_rhs.
  eapply runs_post.
  { eapply runs_bind.
    { read_within B 0%nat. read_within E 2%nat. read_within E 2%nat.
      read_within E 1%nat. read_within E 1%nat. write_within 0%nat. done. }
    eapply runs_bind.
    { read_within B 1%nat. read_within E 0%nat. read_within E 0%nat.
      read_within E 2%nat. read_within E 2%nat. write_within 1%nat.
      by apply wf_insert. }
    read_within B 2%nat. read_within E 1%nat. read_within E 1%nat.
    read_within E 0%nat. read_within E 0%nat. write_within 2%nat.
    by apply wf_insert, wf_insert. }
  reflexivity.
Qed.

End point_within.

Section updates_within.
Variables (σ : gmap loc ndarray) (lE lB : loc) (E B : ndarray).
Variables (n1 n2 n3 : nat).
Hypothesis HlE : σ !! lE = Some E.
Hypothesis HlB : σ !! lB = Some B.
Hypothesis HE : covers n1 n2 n3 E.
Hypothesis HB : covers n1 n2 n3 B.

Lemma update_E_vec_runs_within dt h :
  ∃ E', runs (update_E_vec dt h (Z.of_nat n1, Z.of_nat n2, Z.of_nat n3) lE lB)
          σ (fresh (dom σ)) (<[fresh (dom σ) := E']> σ)
        ∧ holds_within (shp E) n1 n2 n3 (E_rhs (scalar_div dt h) E B) E'.
Proof.
  destruct (shp E) as [[[e0 e1] e2] e3] eqn:HsE.
  assert (room n1 n2 n3 (e0, e1, e2, e3)) as Hroom.
  { destruct HE as [_ Hr]. by rewrite HsE in Hr. }
  destruct (lattice_loops_run_within e0 e1 e2 e3 n1 n2 n3
              (E_rhs (scalar_div dt h) E B) Hroom
              (update_E_point (scalar_div dt h) lE lB (fresh (dom σ)))
              σ (fresh (dom σ)))
    as (E' & Hrun & Hfill).
  { intros a i j k Hwf Hs Hi Hj Hk.
    apply (update_E_point_runs_within σ lE lB _ E B n1 n2 n3);
      [done|done|apply fresh_lookup|done|done|done|congruence|done..]. }
  exists E'. split; [|by apply filled_within_holds].
  unfold update_E_vec.
  eapply runs_bind; [by apply runs_np_shape|].
  eapply runs_bind; [apply runs_np_zeros|].
  rewrite HsE.
  eapply runs_bind; [exact Hrun|]. apply runs_ret.
Qed.

Lemma update_B_vec_runs_within dt h :
  ∃ B', runs (update_B_vec dt h (Z.of_nat n1, Z.of_nat n2, Z.of_nat n3) lE lB)
          σ (fresh (dom σ)) (<[fresh (dom σ) := B']> σ)
        ∧ holds_within (shp B) n1 n2 n3 (B_rhs (scalar_div dt h) E B) B'.
Proof.
  destruct (shp B) as [[[e0 e1] e2] e3] eqn:HsB.
  assert (room n1 n2 n3 (e0, e1, e2, e3)) as Hroom.
  { destruct HB as [_ Hr]. by rewrite HsB in Hr. }
  destruct (lattice_loops_run_within e0 e1 e2 e3 n1 n2 n3
              (B_rhs (scalar_div dt h) E B) Hroom
              (update_B_point (scalar_div dt h) lE lB (fresh (dom σ)))
              σ (fresh (dom σ)))
    as (B' & Hrun & Hfill).
  { intros a i j k Hwf Hs Hi Hj Hk.
    apply (update_B_point_runs_within σ lE lB _ E B n1 n2 n3);
      [done|done|apply fresh_lookup|done|done|done|congruence|done..]. }
  exists B'. split; [|by apply filled_within_holds].
  unfold update_B_vec.
  eapply runs_bind; [by apply runs_np_shape|].
  eapply runs_bind; [apply runs_np_zeros|].
  rewrite HsB.
  eapply runs_bind; [exact Hrun|]. apply runs_ret.
Qed.

End updates_within.

(** X1: when [E] and [B] have room for the lattice [N], equal shapes or
    not, [update_E_vec] returns a new array of the shape of [E]; the entries
    of the lattice points hold the right-hand sides of the assignments, the
    neighbours being wrapped at the extents of [B] itself, and every other
    entry is zero. *)
Theorem update_E_vec_on_larger_arrays (dt : F) (h : vec3) (n1 n2 n3 : nat)
    (σ : gmap loc ndarray) (lE lB : loc) (E B : ndarray) :
  σ !! lE = Some E → σ !! lB = Some B →
  covers n1 n2 n3 E → covers n1 n2 n3 B →
  ∃ l' E',
    update_E_vec dt h (Z.of_nat n1, Z.of_nat n2, Z.of_nat n3) lE lB σ
    = (inr l', <[l' := E']> σ)
    ∧ wf E' ∧ shp E' = shp E
    ∧ ∀ (c : nat) (i j k : Z),
        (c < (shp E).1.1.1)%nat → 0 ≤ i < Z.of_nat (shp E).1.1.2 →
        0 ≤ j < Z.of_nat (shp E).1.2 → 0 ≤ k < Z.of_nat (shp E).2 →
        get E' (Z.of_nat c, i, j, k)
        = Some (if decide (assigned n1 n2 n3 c i j k)
                then E_rhs (scalar_div dt h) E B i j k c else 0%A).
Proof.
  intros HlE HlB HE HB.
  destruct (update_E_vec_runs_within σ lE lB E B n1 n2 n3 HlE HlB HE HB dt h)
    as (E' & Hrun & Hwf & Hs & Hv).
  by exists (fresh (dom σ)), E'.
Qed.

(** X2: when [E] and [B] have room for the lattice [N], equal shapes or
    not, [update_B_vec] returns a new array of the shape of [B]; the entries
    of the lattice points hold the right-hand sides of the assignments, the
    neighbours being wrapped at the extents of [E] itself, and every other
    entry is zero. *)
Theorem update_B_vec_on_larger_arrays (dt : F) (h : vec3) (n1 n2 n3 : nat)
    (σ : gmap loc ndarray) (lE lB : loc) (E B : ndarray) :
  σ !! lE = Some E → σ !! lB = Some B →
  covers n1 n2 n3 E → covers n1 n2 n3 B →
  ∃ l' B',
    update_B_vec dt h (Z.of_nat n1, Z.of_nat n2, Z.of_nat n3) lE lB σ
    = (inr l', <[l' := B']> σ)
    ∧ wf B' ∧ shp B' = shp B
    ∧ ∀ (c : nat) (i j k : Z),
        (c < (shp B).1.1.1)%nat → 0 ≤ i < Z.of_nat (shp B).1.1.2 →
        0 ≤ j < Z.of_nat (shp B).1.2 → 0 ≤ k < Z.of_nat (shp B).2 →
        get B' (Z.of_nat c, i, j, k)
        = Some (if decide (assigned n1 n2 n3 c i j k)
                then B_rhs (scalar_div dt h) E B i j k c else 0%A).
Proof.
  intros HlE HlB HE HB.
  destruct (update_B_vec_runs_within σ lE lB E B n1 n2 n3 HlE HlB HE HB dt h)
    as (B' & Hrun & Hwf & Hs & Hv).
  by exists (fresh (dom σ)), B'.
Qed.

(** ** When the updates fail *)

Lemma runs_getitem_inv τ l idx v τ' :
  runs (getitem l idx) τ v τ' → τ' = τ ∧ ∃ a, τ !! l = Some a ∧ get a idx = Some v.
Proof.
  unfold runs, getitem. destruct (τ !! l) as [a|]; [|done].
  destruct (get a idx) as [w|] eqn:Hget; [|done]. intros [= <- <-]. eauto.
Qed.

Lemma runs_snd {A} (m : M A) σ a σ' : runs m σ a σ' → (m σ).2 = σ'.
Proof. unfold runs. by intros ->. Qed.

(** A loop that has ended normally has run its body normally on every
    element, from a store the invariant holds of. *)
Lemma for_each_runs_elem {A} (J : gmap loc ndarray → Prop) (xs : list A)
    (body : A → M unit) σ σ' x :
  (∀ y, preserves J (body y)) → J σ →
  runs (for_each xs body) σ () σ' → x ∈ xs →
  ∃ τ τ', J τ ∧ runs (body x) τ () τ'.
Proof.
  intros Hp. revert σ. induction xs as [|y xs IH]; intros σ HJ Hrun Hx.
  - by apply elem_of_nil in Hx.
  - simpl in Hrun. apply runs_bind_inv in Hrun as ([] & σ1 & Hy & Hrest).
    apply elem_of_cons in Hx as [->|Hx]; [by exists σ, σ1|].
    apply (IH σ1); [|done..].
    rewrite <- (runs_snd _ _ _ _ Hy). by apply Hp.
Qed.

Lemma elem_of_range (n i : nat) : (i < n)%nat → Z.of_nat i ∈ range (Z.of_nat n).
Proof.
  intros Hi. rewrite range_of_nat. apply list_elem_of_fmap.
  exists i. split; [done|]. apply elem_of_seq. lia.
Qed.

Lemma norm_index_Some_lt (n i : nat) v :
  norm_index n (Z.of_nat i) = Some v → (i < n)%nat.
Proof. unfold norm_index. repeat case_decide; (done || lia). Qed.

Lemma get_Some_inside a a0 a1 a2 a3 (c i j k : nat) :
  shp a = (a0, a1, a2, a3) →
  is_Some (get a (Z.of_nat c, Z.of_nat i, Z.of_nat j, Z.of_nat k)) →
  (c < a0 ∧ i < a1 ∧ j < a2 ∧ k < a3)%nat.
Proof.
  intros Hs [v Hv]. unfold get, flat_index in Hv. rewrite Hs in Hv.
  destruct (norm_index a0 (Z.of_nat c)) eqn:Hc; [|done].
  destruct (norm_index a1 (Z.of_nat i)) eqn:Hi; [|done].
  destruct (norm_index a2 (Z.of_nat j)) eqn:Hj; [|done].
  destruct (norm_index a3 (Z.of_nat k)) eqn:Hk; [|done].
  apply norm_index_Some_lt in Hc, Hi, Hj, Hk. done.
Qed.

(** Steps backwards through [x ← getitem l idx; ...] in a run [H]. *)
Ltac invert_read H Hget :=
  let Hg := fresh "Hg" in
  apply runs_bind_inv in H as (? & ? & Hg & H);
  apply runs_getitem_inv in Hg as [-> (? & ? & Hget)].

Section point_inv.
Variables (σ : gmap loc ndarray) (lE lB l' : loc) (E B : ndarray) (s : shape).
Hypothesis HlE : σ !! lE = Some E.
Hypothesis HlB : σ !! lB = Some B.
Hypothesis Hl' : σ !! l' = None.

Lemma extends_at_inputs τ :
  extends_at σ l' s τ → τ !! lE = Some E ∧ τ !! lB = Some B.
Proof.
  intros (a & -> & _). rewrite !lookup_insert_ne by congruence. done.
Qed.

(** A pass of the body of [update_E_vec] that ends normally has found the
    entries of its lattice point in [E] and in [B]. *)
Lemma update_E_point_runs_inv d i j k τ τ' :
  extends_at σ l' s τ →
  runs (update_E_point d lE lB l' i j k) τ () τ' →
  is_Some (get E (0, i, j, k)) ∧ is_Some (get E (2, i, j, k))
  ∧ is_Some (get B (2, i, j, k)).
Proof.
  intros HJ Hrun. destruct d as [[d0 d1] d2]. unfold update_E_point in Hrun.
  destruct (extends_at_inputs τ HJ) as [HE HB].
  apply runs_bind_inv in Hrun as ([] & τ1 & Hblk1 & Hrun).
  assert (extends_at σ l' s τ1) as HJ1.
  { rewrite <- (runs_snd _ _ _ _ Hblk1). revert HJ. preserves_steps. }
  apply runs_bind_inv in Hrun as ([] & τ2 & Hblk2 & Hrun).
  assert (extends_at σ l' s τ2) as HJ2.
  { rewrite <- (runs_snd _ _ _ _ Hblk2). revert HJ1. preserves_steps. }
  destruct (extends_at_inputs τ2 HJ2) as [HE2 HB2].
  invert_read Hblk1 HgE0. invert_read Hblk1 HgB2.
  invert_read Hrun HgE2.
  simplify_eq. eauto.
Qed.

Lemma update_B_point_runs_inv d i j k τ τ' :
  extends_at σ l' s τ →
  runs (update_B_point d lE lB l' i j k) τ () τ' →
  is_Some (get B (0, i, j, k)) ∧ is_Some (get B (2, i, j, k))
  ∧ is_Some (get E (2, i, j, k)).
Proof.
  intros HJ Hrun. destruct d as [[d0 d1] d2]. unfold update_B_point in Hrun.
  destruct (extends_at_inputs τ HJ) as [HE HB].
  apply runs_bind_inv in Hrun as ([] & τ1 & Hblk1 & Hrun).
  assert (extends_at σ l' s τ1) as HJ1.
  { rewrite <- (runs_snd _ _ _ _ Hblk1). revert HJ. preserves_steps. }
  apply runs_bind_inv in Hrun as ([] & τ2 & Hblk2 & Hrun).
  assert (extends_at σ l' s τ2) as HJ2.
  { rewrite <- (runs_snd _ _ _ _ Hblk2). revert HJ1. preserves_steps. }
  destruct (extends_at_inputs τ2 HJ2) as [HE2 HB2].
  invert_read Hblk1 HgB0. invert_read Hblk1 HgE2.
  invert_read Hrun HgB2.
  simplify_eq. eauto.
Qed.

(** If the loops over a lattice with at least one point end normally, the
    body has ended normally at the last lattice point. *)
Lemma lattice_loops_last_point (body : Z → Z → Z → M unit) (n1 n2 n3 : nat) τ τ' :
  (∀ i j k, preserves (extends_at σ l' s) (body i j k)) →
  (0 < n1)%nat → (0 < n2)%nat → (0 < n3)%nat →
  extends_at σ l' s τ →
  runs (for_each (range (Z.of_nat n1)) (λ i,
          for_each (range (Z.of_nat n2)) (λ j,
            for_each (range (Z.of_nat n3)) (λ k, body i j k)))) τ () τ' →
  ∃ υ υ', extends_at σ l' s υ
    ∧ runs (body (Z.of_nat (n1 - 1)) (Z.of_nat (n2 - 1)) (Z.of_nat (n3 - 1))) υ () υ'.
Proof.
  intros Hp H1 H2 H3 HJ Hrun.
  eapply (for_each_runs_elem (extends_at σ l' s)) in Hrun
    as (τ1 & τ1' & HJ1 & Hrun); [|..|apply (elem_of_range n1 (n1 - 1)); lia].
  2: { intros i. apply preserves_for_each; intros j.
       apply preserves_for_each; intros k. apply Hp. }
  2: done.
  eapply (for_each_runs_elem (extends_at σ l' s)) in Hrun
    as (τ2 & τ2' & HJ2 & Hrun); [|..|apply (elem_of_range n2 (n2 - 1)); lia].
  2: { intros j. apply preserves_for_each; intros k. apply Hp. }
  2: done.
  eapply (for_each_runs_elem (extends_at σ l' s)) in Hrun
    as (τ3 & τ3' & HJ3 & Hrun); [|..|apply (elem_of_range n3 (n3 - 1)); lia].
  2: { intros k. apply Hp. }
  2: done.
  by exists τ3, τ3'.
Qed.

End point_inv.

Lemma runs_update_E_vec_inv dt h N_0 N_1 N_2 lE lB σ E l τ :
  σ !! lE = Some E →
  runs (update_E_vec dt h (N_0, N_1, N_2) lE lB) σ l τ →
  ∃ τ', runs (for_each (range N_0) (λ i,
                for_each (range N_1) (λ j,
                  for_each (range N_2) (λ k,
                    update_E_point (scalar_div dt h) lE lB (fresh (dom σ)) i j k))))
          (<[fresh (dom σ) := zeros (shp E)]> σ) () τ'.
Proof.
  intros HlE Hrun. unfold update_E_vec in Hrun.
  apply runs_bind_inv in Hrun as (s & σ0 & Hs & Hrun).
  unfold runs, np_shape in Hs. rewrite HlE in Hs. injection Hs as <- <-.
  apply runs_bind_inv in Hrun as (l' & σ1 & Hz & Hrun).
  unfold runs, np_zeros in Hz. injection Hz as <- <-.
  apply runs_bind_inv in Hrun as ([] & τ' & Hloops & _). by exists τ'.
Qed.

Lemma runs_update_B_vec_inv dt h N_0 N_1 N_2 lE lB σ B l τ :
  σ !! lB = Some B →
  runs (update_B_vec dt h (N_0, N_1, N_2) lE lB) σ l τ →
  ∃ τ', runs (for_each (range N_0) (λ i,
                for_each (range N_1) (λ j,
                  for_each (range N_2) (λ k,
                    update_B_point (scalar_div dt h) lE lB (fresh (dom σ)) i j k))))
          (<[fresh (dom σ) := zeros (shp B)]> σ) () τ'.
Proof.
  intros HlB Hrun. unfold update_B_vec in Hrun.
  apply runs_bind_inv in Hrun as (s & σ0 & Hs & Hrun).
  unfold runs, np_shape in Hs. rewrite HlB in Hs. injection Hs as <- <-.
  apply runs_bind_inv in Hrun as (l' & σ1 & Hz & Hrun).
  unfold runs, np_zeros in Hz. injection Hz as <- <-.
  apply runs_bind_inv in Hrun as ([] & τ' & Hloops & _). by exists τ'.
Qed.

Lemma room_of_last_point (n1 n2 n3 : nat) (a : ndarray) :
  (0 < n1)%nat → (0 < n2)%nat → (0 < n3)%nat →
  is_Some (get a (2, Z.of_nat (n1 - 1), Z.of_nat (n2 - 1), Z.of_nat (n3 - 1))) →
  room n1 n2 n3 (shp a).
Proof.
  intros H1 H2 H3 Hget. destruct (shp a) as [[[a0 a1] a2] a3] eqn:Hs.
  apply (get_Some_inside a a0 a1 a2 a3 2) in Hget; [|done].
  unfold room. lia.
Qed.

(** On a lattice with at least one point, an update that ends normally
    has found room for the lattice in both arrays. *)
Lemma update_E_vec_needs_room dt h (n1 n2 n3 : nat) σ lE lB E B l τ :
  σ !! lE = Some E → σ !! lB = Some B →
  (0 < n1)%nat → (0 < n2)%nat → (0 < n3)%nat →
  update_E_vec dt h (Z.of_nat n1, Z.of_nat n2, Z.of_nat n3) lE lB σ = (inr l, τ) →
  room n1 n2 n3 (shp E) ∧ room n1 n2 n3 (shp B).
Proof.
  intros HlE HlB H1 H2 H3 Hres.
  apply (runs_update_E_vec_inv _ _ _ _ _ _ _ _ E) in Hres as [τ' Hloops]; [|done].
  pose proof (fresh_lookup σ) as Hfresh.
  apply (lattice_loops_last_point σ (fresh (dom σ)) (shp E)) in Hloops
    as (υ & υ' & HJ & Hbody); [| |done..|by exists (zeros (shp E))].
  2: { intros i j k. apply update_E_point_preserves. }
  apply (update_E_point_runs_inv σ lE lB _ E B (shp E)) in Hbody
    as (_ & HE2 & HB2); [|done..].
  split; by apply room_of_last_point.
Qed.

Lemma update_B_vec_needs_room dt h (n1 n2 n3 : nat) σ lE lB E B l τ :
  σ !! lE = Some E → σ !! lB = Some B →
  (0 < n1)%nat → (0 < n2)%nat → (0 < n3)%nat →
  update_B_vec dt h (Z.of_nat n1, Z.of_nat n2, Z.of_nat n3) lE lB σ = (inr l, τ) →
  room n1 n2 n3 (shp E) ∧ room n1 n2 n3 (shp B).
Proof.
  intros HlE HlB H1 H2 H3 Hres.
  apply (runs_update_B_vec_inv _ _ _ _ _ _ _ _ B) in Hres as [τ' Hloops]; [|done].
  pose proof (fresh_lookup σ) as Hfresh.
  apply (lattice_loops_last_point σ (fresh (dom σ)) (shp B)) in Hloops
    as (υ & υ' & HJ & Hbody); [| |done..|by exists (zeros (shp B))].
  2: { intros i j k. apply update_B_point_preserves. }
  apply (update_B_point_runs_inv σ lE lB _ E B (shp B)) in Hbody
    as (_ & HB2 & HE2); [|done..].
  split; by apply room_of_last_point.
Qed.

(** X3: on a lattice [N] with at least one point, when [E] or [B] has no
    room for the lattice (fewer than three components, or an extent below
    that of [N]), [update_E_vec] raises [IndexError]. *)
Theorem update_E_vec_index_error_without_room (dt : F) (h : vec3)
    (n1 n2 n3 : nat) (σ : gmap loc ndarray) (lE lB : loc) (E B : ndarray) :
  σ !! lE = Some E → σ !! lB = Some B →
  (0 < n1)%nat → (0 < n2)%nat → (0 < n3)%nat →
  ¬ (room n1 n2 n3 (shp E) ∧ room n1 n2 n3 (shp B)) →
  (update_E_vec dt h (Z.of_nat n1, Z.of_nat n2, Z.of_nat n3) lE lB σ).1
  = inl IndexError.
Proof.
  intros HlE HlB H1 H2 H3 Hroom.
  destruct (update_E_vec dt h _ lE lB σ) as [[e|l] τ] eqn:Hres; simpl.
  - f_equal. apply (update_E_vec_raises dt h
      (Z.of_nat n1, Z.of_nat n2, Z.of_nat n3) lE lB σ); [by eexists..|].
    by rewrite Hres.
  - destruct Hroom.
    by apply (update_E_vec_needs_room dt h n1 n2 n3 σ lE lB E B l τ).
Qed.

(** X4: on a lattice [N] with at least one point, when [E] or [B] has no
    room for the lattice, [update_B_vec] raises [IndexError]. *)
Theorem update_B_vec_index_error_without_room (dt : F) (h : vec3)
    (n1 n2 n3 : nat) (σ : gmap loc ndarray) (lE lB : loc) (E B : ndarray) :
  σ !! lE = Some E → σ !! lB = Some B →
  (0 < n1)%nat → (0 < n2)%nat → (0 < n3)%nat →
  ¬ (room n1 n2 n3 (shp E) ∧ room n1 n2 n3 (shp B)) →
  (update_B_vec dt h (Z.of_nat n1, Z.of_nat n2, Z.of_nat n3) lE lB σ).1
  = inl IndexError.
Proof.
  intros HlE HlB H1 H2 H3 Hroom.
  destruct (update_B_vec dt h _ lE lB σ) as [[e|l] τ] eqn:Hres; simpl.
  - f_equal. apply (update_B_vec_raises dt h
      (Z.of_nat n1, Z.of_nat n2, Z.of_nat n3) lE lB σ); [by eexists..|].
    by rewrite Hres.
  - destruct Hroom.
    by apply (update_B_vec_needs_room dt h n1 n2 n3 σ lE lB E B l τ).
Qed.

(** ** An empty lattice *)

Lemma range_nonpos (n : Z) : n ≤ 0 → range n = [].
Proof. intros Hn. unfold range. by rewrite Z2Nat.nonpos. Qed.

Lemma for_each_skip {A} (xs : list A) (body : A → M unit) τ :
  (∀ x υ, body x υ = (inr (), υ)) → for_each xs body τ = (inr (), τ).
Proof.
  intros Hbody. induction xs as [|x xs IH]; [done|].
  simpl. by rewrite (bind_eq _ _ τ () τ).
Qed.

Lemma lattice_loops_empty (body : Z → Z → Z → M unit) (N_0 N_1 N_2 : Z) τ :
  N_0 ≤ 0 ∨ N_1 ≤ 0 ∨ N_2 ≤ 0 →
  for_each (range N_0) (λ i,
    for_each (range N_1) (λ j,
      for_each (range N_2) (λ k, body i j k))) τ
  = (inr (), τ).
Proof.
  intros [H0|[H1|H2]].
  - by rewrite range_nonpos.
  - apply for_each_skip. intros i υ. by rewrite range_nonpos.
  - apply for_each_skip. intros i υ. apply for_each_skip. intros j υ'.
    by rewrite range_nonpos.
Qed.

(** X5: when an entry of [N] is zero or negative no lattice point is
    visited: [update_E_vec] returns a new zero array of the shape of [E]
    without reading [B], and [update_B_vec] a new zero array of the shape of
    [B] without reading [E]; neither raises an exception, whatever the
    shapes. *)
Theorem updates_on_empty_lattice (dt : F) (h : vec3) (N_0 N_1 N_2 : Z)
    (σ : gmap loc ndarray) (lE lB : loc) :
  N_0 ≤ 0 ∨ N_1 ≤ 0 ∨ N_2 ≤ 0 →
  (∀ E, σ !! lE = Some E →
     update_E_vec dt h (N_0, N_1, N_2) lE lB σ
     = (inr (fresh (dom σ)), <[fresh (dom σ) := zeros (shp E)]> σ))
  ∧ (∀ B, σ !! lB = Some B →
       update_B_vec dt h (N_0, N_1, N_2) lE lB σ
       = (inr (fresh (dom σ)), <[fresh (dom σ) := zeros (shp B)]> σ)).
Proof.
  intros HN. split.
  - intros E HlE. unfold update_E_vec.
    rewrite (bind_eq _ _ σ (shp E) σ) by (unfold np_shape; by rewrite HlE).
    rewrite (bind_eq _ _ σ (fresh (dom σ)) (<[fresh (dom σ) := zeros (shp E)]> σ))
      by done.
    cbn zeta. erewrite bind_eq; [done|]. by apply lattice_loops_empty.
  - intros B HlB. unfold update_B_vec.
    rewrite (bind_eq _ _ σ (shp B) σ) by (unfold np_shape; by rewrite HlB).
    rewrite (bind_eq _ _ σ (fresh (dom σ)) (<[fresh (dom σ) := zeros (shp B)]> σ))
      by done.
    cbn zeta. erewrite bind_eq; [done|]. by apply lattice_loops_empty.
Qed.

(** ** More on the time iteration *)

Lemma allocates_like_keeps σ src τ r :
  keeps σ τ → allocates_like src τ r → keeps σ r.2.
Proof.
  intros Hk Ha l a Hl. unfold allocates_like in Ha.
  destruct (τ !! src) as [b|].
  - destruct Ha as [(b' & -> & _) _].
    rewrite lookup_insert_ne; [by apply Hk|].
    intros Heq. pose proof (fresh_lookup τ) as Hf. rewrite Heq in Hf.
    apply Hk in Hl. congruence.
  - rewrite Ha. by apply Hk.
Qed.

Lemma time_iteration_preserves_keeps σ dt h N M lE lB :
  preserves (keeps σ) (time_iteration dt h N M lE lB).
Proof.
  unfold time_iteration. apply preserves_for_each_st.
  intros _ [E_vec B_vec]. apply preserves_bind.
  - intros τ Hk. eapply allocates_like_keeps; [done|].
    apply update_E_vec_allocates.
  - intros E'. apply preserves_bind; [|intros; apply preserves_ret].
    intros τ Hk. eapply allocates_like_keeps; [done|].
    apply update_B_vec_allocates.
Qed.

(** X12: the time iteration never changes an array that exists when it
    starts: whatever the arguments, the number of steps and the outcome,
    every array of the initial store is in the final store as it was (each
    update allocates its result).  With a step count of zero or less it
    returns the very pair it was given and leaves the store as it is. *)
Theorem time_iteration_keeps_arrays (dt : F) (h : vec3) (N : Z * Z * Z) (M : Z)
    (lE lB : loc) (σ : gmap loc ndarray) (l : loc) (a : ndarray) :
  σ !! l = Some a →
  (time_iteration dt h N M lE lB σ).2 !! l = Some a
  ∧ (M ≤ 0 → time_iteration dt h N M lE lB σ = (inr (lE, lB), σ)).
Proof.
  intros Hl. split.
  - apply (time_iteration_preserves_keeps σ dt h N M lE lB σ); [by intros ??|done].
  - intros HM. unfold time_iteration. by rewrite range_nonpos.
Qed.

Lemma leapfrog_steps_runs_within dt h n1 n2 n3 (m : nat) σ lE lB E B :
  σ !! lE = Some E → σ !! lB = Some B →
  covers n1 n2 n3 E → covers n1 n2 n3 B →
  ∃ lE' lB' σ' E' B',
    runs (leapfrog_steps dt h (Z.of_nat n1, Z.of_nat n2, Z.of_nat n3) m lE lB)
      σ (lE', lB') σ'
    ∧ σ' !! lE' = Some E' ∧ σ' !! lB' = Some B'
    ∧ wf E' ∧ shp E' = shp E ∧ wf B' ∧ shp B' = shp B.
Proof.
  revert σ lE lB E B. induction m as [|m IH]; intros σ lE lB E B HlE HlB HE HB.
  - exists lE, lB, σ, E, B. split; [apply runs_ret|].
    destruct HE, HB. done.
  - destruct (update_E_vec_runs_within σ lE lB E B n1 n2 n3 HlE HlB HE HB dt h)
      as (E1 & HrunE & HwfE1 & HsE1 & _).
    set (l1 := fresh (dom σ)) in *. set (σ1 := <[l1 := E1]> σ) in *.
    assert (σ !! l1 = None) as Hl1 by apply fresh_lookup.
    assert (σ1 !! l1 = Some E1) as Hl1' by apply lookup_insert_eq.
    assert (σ1 !! lB = Some B) as HlB'.
    { unfold σ1. rewrite lookup_insert_ne; [done|congruence]. }
    assert (covers n1 n2 n3 E1) as HE1.
    { split; [done|]. rewrite HsE1. apply HE. }
    destruct (update_B_vec_runs_within σ1 l1 lB E1 B n1 n2 n3 Hl1' HlB' HE1 HB dt h)
      as (B1 & HrunB & HwfB1 & HsB1 & _).
    set (l2 := fresh (dom σ1)) in *. set (σ2 := <[l2 := B1]> σ1) in *.
    assert (σ1 !! l2 = None) as Hl2 by apply fresh_lookup.
    assert (σ2 !! l2 = Some B1) as Hl2' by apply lookup_insert_eq.
    assert (σ2 !! l1 = Some E1) as Hl1''.
    { unfold σ2. rewrite lookup_insert_ne; [done|congruence]. }
    assert (covers n1 n2 n3 B1) as HB1.
    { split; [done|]. rewrite HsB1. apply HB. }
    destruct (IH σ2 l1 l2 E1 B1 Hl1'' Hl2' HE1 HB1)
      as (lE' & lB' & σ' & E' & B' & Hrun & HlE' & HlB'' & ? & ? & ? & ?).
    exists lE', lB', σ', E', B'.
    split; [|split; [done|split; [done|]]].
    + simpl. eapply runs_bind; [exact HrunE|].
      eapply runs_bind; [exact HrunB|]. exact Hrun.
    + repeat split; congruence.
Qed.

(** X13: whether the time iteration fails is decided by the shapes alone.
    When [E] and [B] have room for the lattice [N], of equal shapes or not,
    it ends normally for every number of steps and returns arrays of the
    shapes of [E] and of [B]; when the lattice has a point, one of them has
    no room for it and at least one step is asked for, it raises
    [IndexError]. *)
Theorem time_iteration_outcome (dt : F) (h : vec3) (n1 n2 n3 m : nat)
    (σ : gmap loc ndarray) (lE lB : loc) (E B : ndarray) :
  σ !! lE = Some E → σ !! lB = Some B →
  let N := (Z.of_nat n1, Z.of_nat n2, Z.of_nat n3) in
  (covers n1 n2 n3 E → covers n1 n2 n3 B →
   ∃ lE' lB' σ' E' B',
     time_iteration dt h N (Z.of_nat m) lE lB σ = (inr (lE', lB'), σ')
     ∧ σ' !! lE' = Some E' ∧ σ' !! lB' = Some B'
     ∧ wf E' ∧ shp E' = shp E ∧ wf B' ∧ shp B' = shp B)
  ∧ ((0 < n1)%nat → (0 < n2)%nat → (0 < n3)%nat →
     ¬ (room n1 n2 n3 (shp E) ∧ room n1 n2 n3 (shp B)) →
     (time_iteration dt h N (Z.of_nat (S m)) lE lB σ).1 = inl IndexError).
Proof.
  intros HlE HlB N. split.
  - intros HE HB.
    destruct (leapfrog_steps_runs_within dt h n1 n2 n3 m σ lE lB E B HlE HlB HE HB)
      as (lE' & lB' & σ' & E' & B' & Hrun & Hrest).
    exists lE', lB', σ', E', B'. by rewrite time_iteration_steps.
  - intros H1 H2 H3 Hroom.
    pose proof (update_E_vec_raises dt h N lE lB σ) as Hraise.
    assert (∀ l τ, update_E_vec dt h N lE lB σ ≠ (inr l, τ)) as Hfail.
    { intros l τ Hres. destruct Hroom.
      by apply (update_E_vec_needs_room dt h n1 n2 n3 σ lE lB E B l τ). }
    rewrite time_iteration_steps. simpl.
    destruct (update_E_vec dt h N lE lB σ) as [[e|l] τ] eqn:Hres.
    + rewrite (bind_raise _ _ σ e τ) by done. simpl. f_equal.
      apply Hraise; [by eexists..|done].
    + by destruct (Hfail l τ).
Qed.

(** ** The grid *)

Lemma range_snoc (n : Z) : 0 ≤ n → range (n + 1) = range n ++ [n].
Proof.
  intros Hn. unfold range.
  replace (Z.to_nat (n + 1)) with (S (Z.to_nat n)) by lia.
  rewrite seq_S, fmap_app. simpl. by rewrite Z2Nat.id.
Qed.

Lemma length_range_Z (n : Z) : length (range n) = Z.to_nat n.
Proof. unfold range. by rewrite length_fmap, length_seq. Qed.

Lemma lookup_range (n : Z) (k : nat) :
  (k < Z.to_nat n)%nat → range n !! k = Some (Z.of_nat k).
Proof.
  intros Hk. unfold range. rewrite list_lookup_fmap.
  by rewrite lookup_seq_lt.
Qed.

Lemma length_samples a b n : length (samples a b n) = Z.to_nat n.
Proof. unfold samples. by rewrite length_fmap, length_range_Z. Qed.

Lemma lookup_samples a b n (k : nat) :
  (k < Z.to_nat n)%nat → samples a b n !! k = Some (sample a b n (Z.of_nat k)).
Proof.
  intros Hk. unfold samples. rewrite list_lookup_fmap.
  by rewrite lookup_range.
Qed.

Lemma set_last_snoc (stop x : F) xs : set_last stop (xs ++ [x]) = xs ++ [stop].
Proof.
  unfold set_last. rewrite length_app. simpl.
  replace (length xs + 1 - 1)%nat with (length xs + 0)%nat by lia.
  by rewrite insert_app_r.
Qed.

Lemma drop_last_snoc (x : F) xs : drop_last (xs ++ [x]) = xs.
Proof.
  unfold drop_last. rewrite length_app. simpl.
  replace (length xs + 1 - 1)%nat with (length xs) by lia.
  by rewrite take_app_length.
Qed.

(** [np.linspace] returns as many samples as it is asked for. *)
Lemma length_linspace a b num xs :
  linspace a b num = inr xs → length xs = Z.to_nat num.
Proof.
  unfold linspace. case_decide; [done|]. intros [= <-].
  case_decide.
  - unfold set_last. rewrite length_insert, length_fmap.
    destruct (is_zero _); by rewrite !length_fmap, length_range_Z.
  - by rewrite !length_fmap, length_range_Z.
Qed.

(** With two samples at least, [np.linspace(a, b, n + 1)] is the [n]
    samples of [samples] followed by [b] itself. *)
Lemma linspace_samples a b n :
  1 ≤ n → linspace a b (n + 1) = inr (samples a b n ++ [b]).
Proof.
  intros Hn. unfold linspace. rewrite decide_False by lia.
  replace (n + 1 - 1) with n by lia. rewrite decide_True by lia.
  f_equal. rewrite range_snoc by lia. unfold samples, sample.
  destruct (is_zero ((b - a) / of_int n)%A);
    rewrite !fmap_app; simpl; rewrite set_last_snoc; f_equal;
    rewrite <- !list_fmap_compose; by apply list_fmap_ext.
Qed.

Lemma index1_lookup xs (k : nat) x :
  xs !! k = Some x → index1 xs (Z.of_nat k) = inr x.
Proof.
  intros Hx. unfold index1.
  rewrite norm_index_nonneg by (apply lookup_lt_Some in Hx; lia).
  by rewrite Nat2Z.id, Hx.
Qed.

Lemma index1_short xs : (length xs ≤ 1)%nat → index1 xs 1 = inl (Raised IndexError).
Proof. intros Hl. unfold index1. by rewrite norm_index_None by lia. Qed.

(** One axis with two points at least: the points are those of
    [np.linspace] without the last, the spacing is the difference of the
    first two. *)
Lemma grid_axis_samples a b n :
  2 ≤ n → grid_axis a b n = inr (samples a b n, spacing a b n).
Proof.
  intros Hn. unfold grid_axis. rewrite linspace_samples by lia.
  rewrite drop_last_snoc.
  pose proof (index1_lookup _ 1 _ (lookup_samples a b n 1 ltac:(lia))) as H1.
  pose proof (index1_lookup _ 0 _ (lookup_samples a b n 0 ltac:(lia))) as H0.
  change (Z.of_nat 1) with 1 in H1. change (Z.of_nat 0) with 0 in H0.
  by rewrite H1, H0.
Qed.

Lemma grid_axis_fails a b n : n ≤ 1 → grid_axis a b n = inl (axis_failure n).
Proof.
  intros Hn. unfold grid_axis, axis_failure.
  destruct (linspace a b (n + 1)) as [e|xs] eqn:Hlin.
  - unfold linspace in Hlin. case_decide; [|done].
    injection Hlin as <-. by rewrite decide_True by lia.
  - pose proof (length_linspace _ _ _ _ Hlin) as Hlen.
    unfold linspace in Hlin. case_decide; [done|].
    rewrite decide_False by lia.
    rewrite index1_short; [done|].
    unfold drop_last. rewrite length_take. lia.
Qed.

(** X14: on a grid with at least two points on every axis the set-up of
    the grid ends normally, whatever [a] and [b]: on every axis it gives the
    [N] first samples of [np.linspace(a, b, N + 1)], whose last sample, [b]
    itself, is left out; the sample of index [k] is [k * step + a] with
    [step = (b - a) / N] ([k / N * (b - a) + a] when [step] is zero), each
    operation in the arrays' arithmetic; and the spacing is the difference
    of the first two samples. *)
Theorem grid_setup_points (a b : F) (N_0 N_1 N_2 : Z) :
  2 ≤ N_0 → 2 ≤ N_1 → 2 ≤ N_2 →
  grid_setup a b (N_0, N_1, N_2)
  = inr ((samples a b N_0, samples a b N_1, samples a b N_2),
         (spacing a b N_0, spacing a b N_1, spacing a b N_2))
  ∧ (linspace a b (N_0 + 1) = inr (samples a b N_0 ++ [b])
     ∧ linspace a b (N_1 + 1) = inr (samples a b N_1 ++ [b])
     ∧ linspace a b (N_2 + 1) = inr (samples a b N_2 ++ [b]))
  ∧ (length (samples a b N_0) = Z.to_nat N_0
     ∧ length (samples a b N_1) = Z.to_nat N_1
     ∧ length (samples a b N_2) = Z.to_nat N_2)
  ∧ ∀ k : nat,
      ((k < Z.to_nat N_0)%nat →
       samples a b N_0 !! k = Some (sample a b N_0 (Z.of_nat k)))
      ∧ ((k < Z.to_nat N_1)%nat →
         samples a b N_1 !! k = Some (sample a b N_1 (Z.of_nat k)))
      ∧ ((k < Z.to_nat N_2)%nat →
         samples a b N_2 !! k = Some (sample a b N_2 (Z.of_nat k))).
Proof.
  intros H0 H1 H2. unfold grid_setup. rewrite !grid_axis_samples by done.
  split; [done|].
  split; [by rewrite !linspace_samples by lia|].
  split; [by rewrite !length_samples|].
  intros k. repeat split; apply lookup_samples.
Qed.

(** X15: the set-up of the grid needs two points on every axis, since the
    spacing is read off the first two: when an entry of [N] is 1 or less it
    raises an exception, and the first such axis decides which:
    [ValueError] when its entry is below -1 ([np.linspace] is asked for a
    negative number of samples), [IndexError] otherwise. *)
Theorem grid_setup_needs_two_points (a b : F) (N_0 N_1 N_2 : Z) :
  N_0 ≤ 1 ∨ N_1 ≤ 1 ∨ N_2 ≤ 1 →
  grid_setup a b (N_0, N_1, N_2)
  = inl (if decide (N_0 ≤ 1) then axis_failure N_0
         else if decide (N_1 ≤ 1) then axis_failure N_1
         else axis_failure N_2).
Proof.
  intros HN. unfold grid_setup.
  destruct (decide (N_0 ≤ 1)) as [H0|H0]; [by rewrite grid_axis_fails|].
  rewrite grid_axis_samples by lia.
  destruct (decide (N_1 ≤ 1)) as [H1|H1]; [by rewrite grid_axis_fails|].
  rewrite grid_axis_samples by lia.
  rewrite grid_axis_fails by lia. done.
Qed.

(** ** The closed-form fields on the grid *)

Lemma runs_getitem1 xs (k : nat) x τ :
  xs !! k = Some x → runs (getitem1 xs (Z.of_nat k)) τ x τ.
Proof. intros Hx. unfold runs, getitem1. by rewrite (index1_lookup xs k x). Qed.

Lemma field_on_uninit uninit n1 n2 n3 :
  field_on n1 n2 n3
    (mk (3, n1, n2, n3)%nat (uninit <$> seq 0 (size (3, n1, n2, n3)%nat))).
Proof. split; [|done]. unfold wf. cbn [data shp]. by rewrite length_fmap, length_seq. Qed.

Lemma eval_point_runs f0 f1 f2 t Omega_0 Omega_1 Omega_2 σ l' a n1 n2 n3 i j k :
  field_on n1 n2 n3 a →
  (i < n1)%nat → (j < n2)%nat → (k < n3)%nat →
  (n1 ≤ length Omega_0)%nat → (n2 ≤ length Omega_1)%nat →
  (n3 ≤ length Omega_2)%nat →
  runs (eval_point f0 f1 f2 t (Omega_0, Omega_1, Omega_2) l'
          (Z.of_nat i) (Z.of_nat j) (Z.of_nat k))
    (<[l' := a]> σ) ()
    (<[l' := write_point
               (grid_value f0 f1 f2 t (Omega_0, Omega_1, Omega_2)
                  (Z.of_nat i) (Z.of_nat j) (Z.of_nat k)) a i j k]> σ).
Proof.
  intros [Hwf Hs] Hi Hj Hk H0 H1 H2.
  destruct (lookup_lt_is_Some_2 Omega_0 i) as [x Hx]; [lia|].
  destruct (lookup_lt_is_Some_2 Omega_1 j) as [y Hy]; [lia|].
  destruct (lookup_lt_is_Some_2 Omega_2 k) as [z Hz]; [lia|].
  unfold eval_point, write_point, grid_value. rewrite !Nat2Z.id, Hx, Hy, Hz.
  cbn [default].
  eapply runs_post.
  { eapply runs_bind.
    { eapply runs_bind; [by apply runs_getitem1|].
      eapply runs_bind; [by apply runs_getitem1|].
      eapply runs_bind; [by apply runs_getitem1|].
      write_step 0%nat. done. }
    eapply runs_bind.
    { eapply runs_bind; [by apply runs_getitem1|].
      eapply runs_bind; [by apply runs_getitem1|].
      eapply runs_bind; [by apply runs_getitem1|].
      write_step 1%nat. by apply wf_insert. }
    eapply runs_bind; [by apply runs_getitem1|].
    eapply runs_bind; [by apply runs_getitem1|].
    eapply runs_bind; [by apply runs_getitem1|].
    write_step 2%nat. by apply wf_insert, wf_insert. }
  reflexivity.
Qed.

Lemma lift_runs {A} (m : M A) σ a τ : runs m σ a τ → lift m σ = (inr a, τ).
Proof. unfold runs, lift. by intros ->. Qed.

Lemma Py_bind_eq {A B} (m : Py A) (k : A → Py B) σ a τ :
  m σ = (inr a, τ) → (m ≫= k) σ = k a τ.
Proof. intros Hm. unfold mbind, Py_bind. by rewrite Hm. Qed.

Lemma eval_ana_runs uninit f0 f1 f2 t Omega_0 Omega_1 Omega_2 (n1 n2 n3 : nat) σ :
  (n1 ≤ length Omega_0)%nat → (n2 ≤ length Omega_1)%nat →
  (n3 ≤ length Omega_2)%nat →
  ∃ A, eval_ana uninit f0 f1 f2 t (Omega_0, Omega_1, Omega_2)
         (Z.of_nat n1, Z.of_nat n2, Z.of_nat n3) σ
       = (inr (fresh (dom σ)), <[fresh (dom σ) := A]> σ)
       ∧ holds n1 n2 n3 (grid_value f0 f1 f2 t (Omega_0, Omega_1, Omega_2)) A.
Proof.
  intros H0 H1 H2.
  destruct (lattice_loops_run n1 n2 n3
              (grid_value f0 f1 f2 t (Omega_0, Omega_1, Omega_2))
              (eval_point f0 f1 f2 t (Omega_0, Omega_1, Omega_2) (fresh (dom σ)))
              σ (fresh (dom σ))
              (mk (3, n1, n2, n3)%nat (uninit <$> seq 0 (size (3, n1, n2, n3)%nat))))
    as (A & Hrun & Hfill).
  { intros a i j k Ha Hi Hj Hk. by apply (eval_point_runs _ _ _ _ _ _ _ _ _ _ n1 n2 n3). }
  { apply field_on_uninit. }
  exists A. split; [|by apply filled_holds].
  unfold eval_ana. rewrite decide_False by lia.
  apply lift_runs. rewrite !Nat2Z.id.
  eapply runs_bind; [done|].
  eapply runs_bind; [exact Hrun|]. apply runs_ret.
Qed.

Lemma eval_ana_negative uninit f0 f1 f2 t Omega N_0 N_1 N_2 σ :
  N_0 < 0 ∨ N_1 < 0 ∨ N_2 < 0 →
  eval_ana uninit f0 f1 f2 t Omega (N_0, N_1, N_2) σ = (inl ValueError, σ).
Proof. intros HN. unfold eval_ana. by rewrite decide_True. Qed.

Lemma holds_grid_value f0 f1 f2 t Omega_0 Omega_1 Omega_2 n1 n2 n3 A
    (i j k : nat) x y z :
  holds n1 n2 n3 (grid_value f0 f1 f2 t (Omega_0, Omega_1, Omega_2)) A →
  (i < n1)%nat → (j < n2)%nat → (k < n3)%nat →
  Omega_0 !! i = Some x → Omega_1 !! j = Some y → Omega_2 !! k = Some z →
  get A (0, Z.of_nat i, Z.of_nat j, Z.of_nat k) = Some (f0 t x y z)
  ∧ get A (1, Z.of_nat i, Z.of_nat j, Z.of_nat k) = Some (f1 t x y z)
  ∧ get A (2, Z.of_nat i, Z.of_nat j, Z.of_nat k) = Some (f2 t x y z).
Proof.
  intros [_ Hv] Hi Hj Hk Hx Hy Hz.
  destruct (Hv 0%nat (Z.of_nat i) (Z.of_nat j) (Z.of_nat k)) as [H0 _]; [lia..|].
  destruct (Hv 1%nat (Z.of_nat i) (Z.of_nat j) (Z.of_nat k)) as [H1 _]; [lia..|].
  destruct (Hv 2%nat (Z.of_nat i) (Z.of_nat j) (Z.of_nat k)) as [H2 _]; [lia..|].
  unfold grid_value in H0, H1, H2. rewrite !Nat2Z.id, Hx, Hy, Hz in H0, H1, H2.
  done.
Qed.

(** X16: [eval_E_ana] returns a new array of shape (3, N0, N1, N2) whose
    entries at the grid point [i, j, k] are [Ex_ana], [Ey_ana] and [Ez_ana]
    at time [t] and at the sample points of [Omega]: every entry of the
    array that [np.empty] handed out is overwritten, whatever it held.  A
    negative entry of [N] raises [ValueError]. *)
Theorem eval_E_ana_values (Ex_ana Ey_ana Ez_ana : F → F → F → F → F)
    (uninit : nat → F) (t : F) (Omega_0 Omega_1 Omega_2 : list F)
    (n1 n2 n3 : nat) (σ : gmap loc ndarray) :
  (n1 ≤ length Omega_0)%nat → (n2 ≤ length Omega_1)%nat →
  (n3 ≤ length Omega_2)%nat →
  (∃ l' A,
     eval_E_ana Ex_ana Ey_ana Ez_ana uninit t (Omega_0, Omega_1, Omega_2)
       (Z.of_nat n1, Z.of_nat n2, Z.of_nat n3) σ
     = (inr l', <[l' := A]> σ)
     ∧ σ !! l' = None ∧ field_on n1 n2 n3 A
     ∧ ∀ (i j k : nat) x y z, (i < n1)%nat → (j < n2)%nat → (k < n3)%nat →
         Omega_0 !! i = Some x → Omega_1 !! j = Some y → Omega_2 !! k = Some z →
         get A (0, Z.of_nat i, Z.of_nat j, Z.of_nat k) = Some (Ex_ana t x y z)
         ∧ get A (1, Z.of_nat i, Z.of_nat j, Z.of_nat k) = Some (Ey_ana t x y z)
         ∧ get A (2, Z.of_nat i, Z.of_nat j, Z.of_nat k) = Some (Ez_ana t x y z))
  ∧ ∀ N_0 N_1 N_2, N_0 < 0 ∨ N_1 < 0 ∨ N_2 < 0 →
      eval_E_ana Ex_ana Ey_ana Ez_ana uninit t (Omega_0, Omega_1, Omega_2)
        (N_0, N_1, N_2) σ
      = (inl ValueError, σ).
Proof.
  intros H0 H1 H2. split; [|intros; by apply eval_ana_negative].
  destruct (eval_ana_runs uninit Ex_ana Ey_ana Ez_ana t Omega_0 Omega_1 Omega_2
              n1 n2 n3 σ H0 H1 H2) as (A & Hrun & HA).
  exists (fresh (dom σ)), A. split; [exact Hrun|].
  split; [apply fresh_lookup|]. split; [apply HA|].
  intros i j k x y z Hi Hj Hk Hx Hy Hz.
  by apply (holds_grid_value _ _ _ t Omega_0 Omega_1 Omega_2 n1 n2 n3).
Qed.

(** X17: [eval_B_ana] does the same with [Bx_ana], [By_ana] and [Bz_ana]:
    the y component of the array it returns is zero at every grid point,
    whatever the array of [np.empty] held. *)
Theorem eval_B_ana_values (Bx_ana Bz_ana : F → F → F → F → F)
    (uninit : nat → F) (t : F) (Omega_0 Omega_1 Omega_2 : list F)
    (n1 n2 n3 : nat) (σ : gmap loc ndarray) :
  (n1 ≤ length Omega_0)%nat → (n2 ≤ length Omega_1)%nat →
  (n3 ≤ length Omega_2)%nat →
  (∃ l' A,
     eval_B_ana Bx_ana Bz_ana uninit t (Omega_0, Omega_1, Omega_2)
       (Z.of_nat n1, Z.of_nat n2, Z.of_nat n3) σ
     = (inr l', <[l' := A]> σ)
     ∧ σ !! l' = None ∧ field_on n1 n2 n3 A
     ∧ ∀ (i j k : nat) x y z, (i < n1)%nat → (j < n2)%nat → (k < n3)%nat →
         Omega_0 !! i = Some x → Omega_1 !! j = Some y → Omega_2 !! k = Some z →
         get A (0, Z.of_nat i, Z.of_nat j, Z.of_nat k) = Some (Bx_ana t x y z)
         ∧ get A (1, Z.of_nat i, Z.of_nat j, Z.of_nat k) = Some 0%A
         ∧ get A (2, Z.of_nat i, Z.of_nat j, Z.of_nat k) = Some (Bz_ana t x y z))
  ∧ ∀ N_0 N_1 N_2, N_0 < 0 ∨ N_1 < 0 ∨ N_2 < 0 →
      eval_B_ana Bx_ana Bz_ana uninit t (Omega_0, Omega_1, Omega_2)
        (N_0, N_1, N_2) σ
      = (inl ValueError, σ).
Proof.
  intros H0 H1 H2. split; [|intros; by apply eval_ana_negative].
  destruct (eval_ana_runs uninit Bx_ana By_ana Bz_ana t Omega_0 Omega_1 Omega_2
              n1 n2 n3 σ H0 H1 H2) as (A & Hrun & HA).
  exists (fresh (dom σ)), A. split; [exact Hrun|].
  split; [apply fresh_lookup|]. split; [apply HA|].
  intros i j k x y z Hi Hj Hk Hx Hy Hz.
  by apply (holds_grid_value _ By_ana _ t Omega_0 Omega_1 Omega_2 n1 n2 n3).
Qed.

(** ** The whole run *)

Lemma runs_np_copy σ l a :
  σ !! l = Some a → runs (np_copy l) σ (fresh (dom σ)) (<[fresh (dom σ) := a]> σ).
Proof. intros Hl. unfold runs, np_copy. by rewrite Hl. Qed.

Lemma lookup_insert_fresh (σ : gmap loc ndarray) l a b :
  σ !! l = Some a → <[fresh (dom σ) := b]> σ !! l = Some a.
Proof.
  intros Hl. rewrite lookup_insert_ne; [done|].
  intros Heq. pose proof (fresh_lookup σ) as Hf. congruence.
Qed.

(** X18: with at least two grid points on every axis the notebook runs to
    the end of its time iteration without an exception, for every [dt],
    domain [a, b) and number of steps, in any arithmetic: [E0] and [B0]
    hold the closed-form fields at time 0 on the grid points that the
    set-up has computed, they are still intact at the end, and the fields
    returned are those of the leap-frog recurrence started from them with
    the spacings that the set-up has read off the grid; no array that
    existed before the run is changed. *)
Theorem simulation_runs (Ex_ana Ey_ana Ez_ana Bx_ana Bz_ana : F → F → F → F → F)
    (uninit : nat → F) (dt a b : F) (m n1 n2 n3 : nat)
    (σ : gmap loc ndarray) :
  (2 ≤ n1)%nat → (2 ≤ n2)%nat → (2 ≤ n3)%nat →
  let N := (Z.of_nat n1, Z.of_nat n2, Z.of_nat n3) in
  ∃ Omega h lE0 lB0 lE lB σ' E0 B0 E' B',
    grid_setup a b N = inr (Omega, h)
    ∧ simulation Ex_ana Ey_ana Ez_ana Bx_ana Bz_ana uninit dt (Z.of_nat m) N a b σ
      = (inr (lE0, lB0, (lE, lB)), σ')
    ∧ σ' !! lE0 = Some E0 ∧ σ' !! lB0 = Some B0
    ∧ σ' !! lE = Some E' ∧ σ' !! lB = Some B'
    ∧ holds n1 n2 n3 (grid_value Ex_ana Ey_ana Ez_ana 0%A Omega) E0
    ∧ holds n1 n2 n3 (grid_value Bx_ana By_ana Bz_ana 0%A Omega) B0
    ∧ leapfrog_fields (scalar_div dt h) n1 n2 n3 m E0 B0 E' B'
    ∧ ∀ l x, σ !! l = Some x → σ' !! l = Some x.
Proof.
  intros H1 H2 H3 N.
  set (h := (spacing a b (Z.of_nat n1), spacing a b (Z.of_nat n2),
             spacing a b (Z.of_nat n3))).
  set (Omega := (samples a b (Z.of_nat n1), samples a b (Z.of_nat n2),
                 samples a b (Z.of_nat n3))).
  assert (grid_setup a b N = inr (Omega, h)) as Hgrid.
  { unfold grid_setup, N. by rewrite !grid_axis_samples by lia. }
  destruct (eval_ana_runs uninit Ex_ana Ey_ana Ez_ana 0%A
              (samples a b (Z.of_nat n1)) (samples a b (Z.of_nat n2))
              (samples a b (Z.of_nat n3)) n1 n2 n3 σ)
    as (E0 & HrunE0 & HE0); [rewrite length_samples; lia..|].
  set (lE0 := fresh (dom σ)) in *. set (σ1 := <[lE0 := E0]> σ) in *.
  destruct (eval_ana_runs uninit Bx_ana By_ana Bz_ana 0%A
              (samples a b (Z.of_nat n1)) (samples a b (Z.of_nat n2))
              (samples a b (Z.of_nat n3)) n1 n2 n3 σ1)
    as (B0 & HrunB0 & HB0); [rewrite length_samples; lia..|].
  set (lB0 := fresh (dom σ1)) in *. set (σ2 := <[lB0 := B0]> σ1) in *.
  assert (σ1 !! lE0 = Some E0) as HlE0 by apply lookup_insert_eq.
  assert (σ2 !! lE0 = Some E0) as HlE0' by by apply lookup_insert_fresh.
  assert (σ2 !! lB0 = Some B0) as HlB0 by apply lookup_insert_eq.
  pose proof (runs_np_copy σ2 lE0 E0 HlE0') as HcE.
  set (lE := fresh (dom σ2)) in *. set (σ3 := <[lE := E0]> σ2) in *.
  assert (σ3 !! lB0 = Some B0) as HlB0' by by apply lookup_insert_fresh.
  pose proof (runs_np_copy σ3 lB0 B0 HlB0') as HcB.
  set (lB := fresh (dom σ3)) in *. set (σ4 := <[lB := B0]> σ3) in *.
  assert (σ3 !! lE = Some E0) as HlE by apply lookup_insert_eq.
  assert (σ4 !! lE = Some E0) as HlE' by by apply lookup_insert_fresh.
  assert (σ4 !! lB = Some B0) as HlB by apply lookup_insert_eq.
  destruct (leapfrog_steps_runs dt h n1 n2 n3 m σ4 lE lB E0 B0 HlE' HlB
              (proj1 HE0) (proj1 HB0))
    as (lE' & lB' & σ' & E' & B' & Hrun & HlE'' & HlB'' & Hfields & Hframe).
  assert (∀ l x, σ !! l = Some x → σ4 !! l = Some x) as Hkeep.
  { intros l x Hl. unfold σ4, σ3, σ2, σ1.
    do 4 (apply lookup_insert_fresh). done. }
  exists Omega, h, lE0, lB0, lE', lB', σ', E0, B0, E', B'.
  split; [exact Hgrid|].
  split.
  { unfold simulation.
    rewrite (Py_bind_eq _ _ σ (Omega, h) σ) by (unfold of_result; by rewrite Hgrid).
    rewrite (Py_bind_eq _ _ σ lE0 σ1) by exact HrunE0.
    rewrite (Py_bind_eq _ _ σ1 lB0 σ2) by exact HrunB0.
    rewrite (Py_bind_eq _ _ σ2 lE σ3) by (by apply lift_runs).
    rewrite (Py_bind_eq _ _ σ3 lB σ4) by (by apply lift_runs).
    rewrite (Py_bind_eq _ _ σ4 (lE', lB') σ'); [done|].
    apply lift_runs. unfold runs. by rewrite time_iteration_steps. }
  assert (σ4 !! lE0 = Some E0) as HlE0''.
  { unfold σ4, σ3. by do 2 apply lookup_insert_fresh. }
  assert (σ4 !! lB0 = Some B0) as HlB0''.
  { unfold σ4. by apply lookup_insert_fresh. }
  split; [rewrite Hframe; [done|by eexists]|].
  split; [rewrite Hframe; [done|by eexists]|].
  split; [done|]. split; [done|]. split; [done|]. split; [done|]. split; [done|].
  intros l x Hl. pose proof (Hkeep l x Hl) as Hl4.
  rewrite Hframe; [done|by eexists].
Qed.

End carrier.

(** * Exact arithmetic and [float64]

    The properties that belong to one arithmetic, and the general ones
    applied to given fields: in exact arithmetic on the fields of
    [store_a0] and [store_cb], in [float64] on the others. *)

(** ** Facts on [float64] *)

(** A finite [float64] that is not negative gives zero when multiplied by
    zero; [inf] and [nan] do not. *)
Lemma float64_mul_zero (x : float) :
  finite_nonneg x = true → (x * 0)%float = 0%float.
Proof.
  unfold finite_nonneg. intros Hx. apply Prim2SF_inj.
  rewrite FloatAxioms.mul_spec.
  destruct (Prim2SF x) as [[|]|[|]| |[|] m e]; (discriminate Hx || reflexivity).
Qed.

Lemma float64_absorbs_zero (dt h0 h1 h2 : float) :
  finite_nonneg (dt / h0) = true → finite_nonneg (dt / h1) = true →
  finite_nonneg (dt / h2) = true →
  absorbs_zero (scalar_div dt (h0, h1, h2)).
Proof.
  intros H0 H1 H2. unfold absorbs_zero, scalar_div.
  split; [by apply float64_mul_zero|]. split; [by apply float64_mul_zero|].
  split; [by apply float64_mul_zero|]. by split.
Qed.

(** Two [float64] that the kernel computes to different values. *)
Ltac float_neq H :=
  apply (f_equal Prim2SF) in H; vm_compute in H; discriminate H.

(** ** The formulas of the updates *)

(** C1, as stated, fails on [float64]: read from left to right, the
    specification's formula adds the first product to [E] and then
    subtracts the second, rounding after each operation.  On [field_u],
    [field_w], where [E[x]] is 1 and both products are 1e16 at the lattice
    point (0, 0, 0), the formula gives 0 and [update_E_vec] gives 1. *)
Lemma update_E_vec_not_left_to_right :
  field_on 1 2 2 field_u ∧ field_on 1 2 2 field_w
  ∧ ∃ l' E',
      update_E_vec 1%float (1, 1, 1)%float (1, 2, 2) 0%nat 1%nat store_uw
      = (inr l', <[l' := E']> store_uw)
      ∧ get E' (0, 0, 0, 0) = Some 1%float
      ∧ E_spec (scalar_div 1%float (1, 1, 1)%float) field_u field_w 0 0 0 0
        = 0%float
      ∧ get E' (0, 0, 0, 0)
        ≠ Some (E_spec (scalar_div 1%float (1, 1, 1)%float) field_u field_w 0 0 0 0).
Proof.
  split; [by split|]. split; [by split|].
  destruct (update_E_vec_runs store_uw 0%nat 1%nat field_u field_w 1 2 2
              eq_refl eq_refl ltac:(by split) ltac:(by split)
              1%float (1, 1, 1)%float) as (E' & Hrun & _ & Hv).
  exists (fresh (dom store_uw)), E'. split; [exact Hrun|].
  destruct (Hv 0%nat 0 0 0) as [Hget _]; [lia..|].
  change (Z.of_nat 0) with 0 in Hget. rewrite Hget.
  split; [f_equal; by vm_compute|]. split; [by vm_compute|].
  intros H. apply (f_equal (default 0%float)) in H. float_neq H.
Qed.

Lemma update_E_vec_formula_witness :
  ∃ l' E',
    update_E_vec 0.5%float (1, 0.25, 0.5)%float (1, 2, 2) 0%nat 1%nat store_st
    = (inr l', <[l' := E']> store_st)
    ∧ get E' (0, 0, 0, 0) = Some (-16)%float
    ∧ get E' (1, 0, 1, 1) = Some 10%float.
Proof.
  destruct (update_E_vec_formula 0.5%float 1%float 0.25%float 0.5%float 1 2 2
              store_st 0%nat 1%nat field_s field_t)
    as (l' & E' & Hrun & _ & Hv); [done|done|by split|by split|].
  exists l', E'. split; [exact Hrun|].
  destruct (Hv 0 0 0) as [H0 _]; [lia..|].
  destruct (Hv 0 1 1) as (_ & H1 & _); [lia..|].
  rewrite H0, H1. split; f_equal; vm_compute; reflexivity.
Defined.

(** C2, as stated, fails on [float64] in the same way: read from left to
    right, the specification's formula subtracts the first product from [B]
    and then adds the second.  With [field_w] for [E] and [field_u] for
    [B], the formula gives 0 at the lattice point (0, 0, 0) and
    [update_B_vec] gives 1. *)
Lemma update_B_vec_not_left_to_right :
  field_on 1 2 2 field_w ∧ field_on 1 2 2 field_u
  ∧ ∃ l' B',
      update_B_vec 1%float (1, 1, 1)%float (1, 2, 2) 1%nat 0%nat store_uw
      = (inr l', <[l' := B']> store_uw)
      ∧ get B' (0, 0, 0, 0) = Some 1%float
      ∧ B_spec (scalar_div 1%float (1, 1, 1)%float) field_w field_u 0 0 0 0
        = 0%float
      ∧ get B' (0, 0, 0, 0)
        ≠ Some (B_spec (scalar_div 1%float (1, 1, 1)%float) field_w field_u 0 0 0 0).
Proof.
  split; [by split|]. split; [by split|].
  destruct (update_B_vec_runs store_uw 1%nat 0%nat field_w field_u 1 2 2
              eq_refl eq_refl ltac:(by split) ltac:(by split)
              1%float (1, 1, 1)%float) as (B' & Hrun & _ & Hv).
  exists (fresh (dom store_uw)), B'. split; [exact Hrun|].
  destruct (Hv 0%nat 0 0 0) as [Hget _]; [lia..|].
  change (Z.of_nat 0) with 0 in Hget. rewrite Hget.
  split; [f_equal; by vm_compute|]. split; [by vm_compute|].
  intros H. apply (f_equal (default 0%float)) in H. float_neq H.
Qed.

Lemma update_B_vec_formula_witness :
  ∃ l' B',
    update_B_vec 0.5%float (1, 0.25, 0.5)%float (1, 2, 2) 0%nat 1%nat store_st
    = (inr l', <[l' := B']> store_st)
    ∧ get B' (0, 0, 0, 0) = Some 3.5%float
    ∧ get B' (2, 0, 1, 1) = Some 31%float.
Proof.
  destruct (update_B_vec_formula 0.5%float 1%float 0.25%float 0.5%float 1 2 2
              store_st 0%nat 1%nat field_s field_t)
    as (l' & B' & Hrun & _ & Hv); [done|done|by split|by split|].
  exists l', B'. split; [exact Hrun|].
  destruct (Hv 0 0 0) as [H0 _]; [lia..|].
  destruct (Hv 0 1 1) as (_ & _ & H2); [lia..|].
  rewrite H0, H2. split; f_equal; vm_compute; reflexivity.
Defined.

(** ** The time iteration *)

Lemma time_iteration_leapfrog_witness :
  ∃ lE' lB' σ' E' B',
    time_iteration 1%Qc (1, 1, 1)%Qc (1, 1, 2) 3 0%nat 1%nat store_a0
    = (inr (lE', lB'), σ')
    ∧ σ' !! lE' = Some E' ∧ σ' !! lB' = Some B'
    ∧ leapfrog_fields (scalar_div 1%Qc (1, 1, 1)%Qc) 1 1 2 3 field_a field_0 E' B'.
Proof.
  apply (time_iteration_leapfrog 1%Qc (1, 1, 1)%Qc 1 1 2 3 store_a0 0%nat 1%nat
           field_a field_0); [done|done|by split|by split].
Defined.

(** ** Access to the field grid *)

(** C4, as stated, fails: an index equal to the extent of its axis is not
    reduced to 0, the access raises [IndexError]; the entry that the
    reduction modulo the extent designates exists. *)
Lemma getitem_not_any_integer :
  field_on 2 2 2 field_b
  ∧ get field_b (0, 2, 0, 0) = None
  ∧ get field_b (0, 2 mod 2, 0, 0) = Some (periodic_get field_b 0 2 0 0)
  ∧ getitem 0%nat (0, 2, 0, 0) (<[0%nat := field_b]> ∅)
    = (inl IndexError, <[0%nat := field_b]> ∅).
Proof. split; [by split|]. by vm_compute. Qed.

Lemma getitem_periodic_window_witness :
  get field_b (0, 0, -1, 1) = get field_b (0, 0, 1, 1)
  ∧ get field_b (0, -2, 0, 0) = Some (Q2Qc 7)
  ∧ getitem 0%nat (0, 0, 0, -3) (<[0%nat := field_b]> ∅)
    = (inl IndexError, <[0%nat := field_b]> ∅).
Proof.
  destruct (getitem_periodic_window field_b 2 2 2 0 (-2) 0 0)
    as (Hin & _ & _ & _ & _); [by split|lia|].
  destruct (getitem_periodic_window field_b 2 2 2 0 0 0 1)
    as (_ & _ & _ & Hj & _); [by split|lia|].
  destruct (getitem_periodic_window field_b 2 2 2 0 0 0 (-3))
    as (_ & Hout & _); [by split|lia|].
  split; [exact Hj|]. split.
  - destruct Hin as [_ Hin]; [lia..|]. exact Hin.
  - apply Hout; [unfold index_sized; lia..|lia|done].
Defined.

(** ** The exceptions of the updates *)

(** C5, as stated, fails: [update_E_vec] reports no shape mismatch and no
    invalid parameter.  Called on an [E] and a [B] of different lattice
    shapes it returns a result, and so it does for a negative [dt] and a
    negative grid spacing. *)
Lemma update_E_vec_accepts_bad_arguments :
  shp field_c ≠ shp field_b
  ∧ (update_E_vec 1%Qc (1, 1, 1)%Qc (1, 1, 1) 0%nat 1%nat store_cb).1 = inr 2%nat
  ∧ (update_E_vec (-1)%Qc (1, -1, 1)%Qc (1, 1, 2) 0%nat 1%nat store_a0).1 = inr 2%nat.
Proof. split; [done|]. split; by vm_compute. Qed.

Lemma update_E_vec_unchecked_witness :
  (∃ l' E',
     update_E_vec (-1)%Qc (1, -1, 1)%Qc (1, 1, 2) 0%nat 1%nat store_a0
     = (inr l', <[l' := E']> store_a0)
     ∧ field_on 1 1 2 E')
  ∧ (∀ e τ,
       update_E_vec (-1)%Qc (1, -1, 1)%Qc (2, 2, 2) 0%nat 1%nat store_a0 = (inl e, τ) →
       e = IndexError).
Proof.
  destruct (update_E_vec_unchecked (-1)%Qc (1, -1, 1)%Qc store_a0 0%nat 1%nat
              field_a field_0) as [Hok Hfail]; [done|done|].
  split.
  - apply (Hok 1 1 2)%nat; by split.
  - intros e τ Hrun. by destruct (Hfail (2, 2, 2) e τ Hrun).
Defined.

(** On the lattice (2, 2, 2), larger than the fields of [store_a0], the call
    does fail, and with [IndexError]. *)
Example update_E_vec_index_error :
  (update_E_vec (-1)%Qc (1, -1, 1)%Qc (2, 2, 2) 0%nat 1%nat store_a0).1
  = inl IndexError.
Proof. by vm_compute. Qed.

(** ** Linearity *)



(** ** Zero fields on [float64] *)

(** X19: on [float64], when the three quotients [dt / h d] are finite and
    not negative, the time iteration keeps zero fields zero: started from
    fields that are 0 at every lattice point, it returns, after any number
    of steps, fields that are 0 at every lattice point. *)
Theorem zero_fields_stay_zero_on_float64 (dt h0 h1 h2 : float) (n1 n2 n3 m : nat)
    (σ : gmap loc (ndarray float)) (lE lB : loc) (E B : ndarray float) :
  finite_nonneg (dt / h0) = true → finite_nonneg (dt / h1) = true →
  finite_nonneg (dt / h2) = true →
  σ !! lE = Some E → σ !! lB = Some B →
  field_on n1 n2 n3 E → field_on n1 n2 n3 B →
  zero_on n1 n2 n3 E → zero_on n1 n2 n3 B →
  ∃ lE' lB' σ' E' B',
    time_iteration dt (h0, h1, h2) (Z.of_nat n1, Z.of_nat n2, Z.of_nat n3)
      (Z.of_nat m) lE lB σ
    = (inr (lE', lB'), σ')
    ∧ σ' !! lE' = Some E' ∧ σ' !! lB' = Some B'
    ∧ zero_on n1 n2 n3 E' ∧ zero_on n1 n2 n3 B'.
Proof.
  intros H0 H1 H2 HlE HlB HE HB HzE HzB.
  destruct (zero_fields_fixed dt (h0, h1, h2) n1 n2 n3 m σ lE lB E B)
    as (lE' & lB' & σ' & E' & B' & Hrun & HlE' & HlB' & _ & _ & HzE' & HzB');
    [by apply float64_absorbs_zero|done..|].
  by exists lE', lB', σ', E', B'.
Qed.

Lemma zero_fields_stay_zero_on_float64_witness :
  ∃ lE' lB' σ' E' B',
    time_iteration 0.5%float (0.25, 0.5, 1)%float (1, 1, 1) 5 0%nat 1%nat store_zz
    = (inr (lE', lB'), σ')
    ∧ σ' !! lE' = Some E' ∧ σ' !! lB' = Some B'
    ∧ zero_on 1 1 1 E' ∧ zero_on 1 1 1 B'.
Proof.
  apply (zero_fields_stay_zero_on_float64 0.5%float 0.25%float 0.5%float 1%float
           1 1 1 5 store_zz 0%nat 1%nat field_z field_z);
    [done|done|done|done|done|by split|by split| |];
    exact (zero_on_zeros (F:=float) 1 1 1 (3, 1, 1, 1)%nat).
Defined.

(** ** The order of the two updates *)

(** C7: the order of the two updates matters: there are fields [E], [B] on
    a lattice, with a discrete curl of [E] that is not zero, from which one
    step of the time iteration (E-update, then B-update) and one step with
    the updates swapped return different pairs of fields. *)
Theorem step_order_matters :
  ∃ (dt : Qc) (h : vec3 Qc) (n1 n2 n3 : nat) (σ : gmap loc (ndarray Qc))
    (lE lB : loc) (E B E1 B1 E2 B2 : ndarray Qc),
    let N := (Z.of_nat n1, Z.of_nat n2, Z.of_nat n3) in
    σ !! lE = Some E ∧ σ !! lB = Some B
    ∧ field_on n1 n2 n3 E ∧ field_on n1 n2 n3 B
    ∧ B_rhs (scalar_div dt h) E B 0 0 0 1 ≠ periodic_get B 1 0 0 0
    ∧ fields_of (time_iteration dt h N 1 lE lB σ) = Some (E1, B1)
    ∧ fields_of (swapped_step dt h N lE lB σ) = Some (E2, B2)
    ∧ (E1, B1) ≠ (E2, B2).
Proof.
  exists 1%Qc, (1, 1, 1)%Qc, 1%nat, 1%nat, 2%nat, store_a0, 0%nat, 1%nat,
    field_a, field_0.
  do 4 eexists. cbn zeta.
  split; [done|]. split; [done|]. split; [by split|]. split; [by split|].
  split; [by vm_compute|].
  split; [vm_compute; reflexivity|]. split; [vm_compute; reflexivity|].
  intros Heq.
  apply (f_equal (λ p : ndarray Qc * ndarray Qc, this (periodic_get p.1 0 0 0 0))) in Heq.
  vm_compute in Heq. discriminate Heq.
Qed.

(** ** The updates do not touch their arguments *)

Lemma updates_pure_witness :
  (update_E_vec 1%Qc (1, 1, 1)%Qc (1, 1, 2) 0%nat 1%nat store_a0).2 !! 0%nat
  = Some field_a
  ∧ (update_B_vec 1%Qc (1, 1, 1)%Qc (2, 2, 2) 0%nat 1%nat store_a0).2 !! 1%nat
    = Some field_0.
Proof.
  destruct (updates_pure 1%Qc (1, 1, 1)%Qc (1, 1, 2) store_a0 0%nat 1%nat
              field_a field_0) as [(HE & _) _]; [done|done|].
  destruct (updates_pure 1%Qc (1, 1, 1)%Qc (2, 2, 2) store_a0 0%nat 1%nat
              field_a field_0) as [_ (_ & HB & _)]; [done|done|].
  by split.
Defined.

(** ** The two updates share one discrete curl *)



(** ** The updates on arrays larger than the lattice, and their failures *)

Lemma update_E_vec_on_larger_arrays_witness :
  ∃ l' E',
    update_E_vec 1%Qc (1, 1, 1)%Qc (1, 1, 1) 0%nat 1%nat store_cb
    = (inr l', <[l' := E']> store_cb)
    ∧ shp E' = (3, 1, 1, 1)%nat.
Proof.
  destruct (update_E_vec_on_larger_arrays 1%Qc (1, 1, 1)%Qc 1 1 1 store_cb
              0%nat 1%nat field_c field_b)
    as (l' & E' & Hrun & _ & Hs & _);
    [done|done|split; [done|simpl; lia]|split; [done|simpl; lia]|].
  by exists l', E'.
Defined.

Lemma update_B_vec_on_larger_arrays_witness :
  ∃ l' B',
    update_B_vec 1%Qc (1, 1, 1)%Qc (1, 1, 1) 0%nat 1%nat store_cb
    = (inr l', <[l' := B']> store_cb)
    ∧ shp B' = (3, 2, 2, 2)%nat
    ∧ get B' (0, 1, 1, 1) = Some 0%Qc.
Proof.
  destruct (update_B_vec_on_larger_arrays 1%Qc (1, 1, 1)%Qc 1 1 1 store_cb
              0%nat 1%nat field_c field_b)
    as (l' & B' & Hrun & _ & Hs & Hv);
    [done|done|split; [done|simpl; lia]|split; [done|simpl; lia]|].
  exists l', B'. split; [exact Hrun|]. split; [exact Hs|].
  apply (Hv 0%nat 1 1 1); simpl; lia.
Defined.

Lemma update_E_vec_index_error_without_room_witness :
  (update_E_vec 1%Qc (1, 1, 1)%Qc (2, 2, 2) 0%nat 1%nat store_cb).1
  = inl IndexError.
Proof.
  apply (update_E_vec_index_error_without_room 1%Qc (1, 1, 1)%Qc 2 2 2 store_cb
           0%nat 1%nat field_c field_b); [done|done|lia|lia|lia|].
  intros [HE _]. simpl in HE. lia.
Defined.

Lemma update_B_vec_index_error_without_room_witness :
  (update_B_vec 1%Qc (1, 1, 1)%Qc (2, 2, 2) 0%nat 1%nat store_cb).1
  = inl IndexError.
Proof.
  apply (update_B_vec_index_error_without_room 1%Qc (1, 1, 1)%Qc 2 2 2 store_cb
           0%nat 1%nat field_c field_b); [done|done|lia|lia|lia|].
  intros [HE _]. simpl in HE. lia.
Defined.

Lemma updates_on_empty_lattice_witness :
  update_E_vec 1%Qc (1, 1, 1)%Qc (5, 0, 5) 0%nat 7%nat store_a0
  = (inr 2%nat, <[2%nat := zeros (3, 1, 1, 2)%nat]> store_a0)
  ∧ update_B_vec 1%Qc (1, 1, 1)%Qc (5, 5, -1) 7%nat 1%nat store_a0
    = (inr 2%nat, <[2%nat := zeros (3, 1, 1, 2)%nat]> store_a0).
Proof.
  destruct (updates_on_empty_lattice 1%Qc (1, 1, 1)%Qc 5 0 5 store_a0 0%nat 7%nat)
    as [HE _]; [lia|].
  destruct (updates_on_empty_lattice 1%Qc (1, 1, 1)%Qc 5 5 (-1) store_a0 7%nat 1%nat)
    as [_ HB]; [lia|].
  split; [exact (HE field_a eq_refl)|exact (HB field_0 eq_refl)].
Defined.

(** ** More on the time iteration *)

Lemma time_iteration_keeps_arrays_witness :
  (time_iteration 1%Qc (1, 1, 1)%Qc (2, 2, 2) 3 0%nat 1%nat store_a0).2 !! 0%nat
  = Some field_a
  ∧ time_iteration 1%Qc (1, 1, 1)%Qc (1, 1, 2) (-2) 0%nat 1%nat store_a0
    = (inr (0%nat, 1%nat), store_a0).
Proof.
  destruct (time_iteration_keeps_arrays 1%Qc (1, 1, 1)%Qc (2, 2, 2) 3 0%nat 1%nat
              store_a0 0%nat field_a) as [Hk _]; [done|].
  destruct (time_iteration_keeps_arrays 1%Qc (1, 1, 1)%Qc (1, 1, 2) (-2) 0%nat 1%nat
              store_a0 0%nat field_a) as [_ H0]; [done|].
  split; [exact Hk|apply H0; lia].
Defined.

Lemma time_iteration_outcome_witness :
  (∃ lE' lB' σ' E' B',
     time_iteration 1%Qc (1, 1, 1)%Qc (1, 1, 1) 2 0%nat 1%nat store_cb
     = (inr (lE', lB'), σ')
     ∧ σ' !! lE' = Some E' ∧ σ' !! lB' = Some B'
     ∧ shp E' = (3, 1, 1, 1)%nat ∧ shp B' = (3, 2, 2, 2)%nat)
  ∧ (time_iteration 1%Qc (1, 1, 1)%Qc (2, 2, 2) 3 0%nat 1%nat store_cb).1
    = inl IndexError.
Proof.
  destruct (time_iteration_outcome 1%Qc (1, 1, 1)%Qc 1 1 1 2 store_cb 0%nat 1%nat
              field_c field_b) as [Hok _]; [done|done|].
  destruct (time_iteration_outcome 1%Qc (1, 1, 1)%Qc 2 2 2 2 store_cb 0%nat 1%nat
              field_c field_b) as [_ Hfail]; [done|done|].
  split.
  - destruct Hok as (lE' & lB' & σ' & E' & B' & Hrun & H1 & H2 & _ & H3 & _ & H4);
      [split; [done|simpl; lia]|split; [done|simpl; lia]|].
    by exists lE', lB', σ', E', B'.
  - apply Hfail; [lia|lia|lia|]. intros [HE _]. simpl in HE. lia.
Defined.

(** ** The grid *)

(** On [float64], with three points between 1 and 2: the spacing that the
    notebook reads off the grid is not the step [(2 - 1) / 3] of
    [np.linspace], both being rounded. *)
Lemma grid_setup_points_witness :
  ∃ Omega h,
    grid_setup 1%float 2%float (3, 3, 3) = inr (Omega, h)
    ∧ length Omega.1.2 = 3%nat
    ∧ h.1.2 = 0x1.5555555555554p-2%float
    ∧ ((2 - 1) / 3 = 0x1.5555555555555p-2)%float.
Proof.
  destruct (grid_setup_points 1%float 2%float 3 3 3) as (Hg & _ & (_ & Hl & _) & _);
    [lia..|].
  eexists _, _. split; [exact Hg|]. split; [exact Hl|].
  split; vm_compute; reflexivity.
Defined.

Lemma grid_setup_needs_two_points_witness :
  grid_setup 0%float 1%float (8, 1, 8) = inl (Raised IndexError)
  ∧ grid_setup 0%float 1%float (1, -5, 2) = inl (Raised IndexError)
  ∧ grid_setup 0%float 1%float (8, -5, 1) = inl ValueError.
Proof.
  split; [|split].
  - apply (grid_setup_needs_two_points 0%float 1%float 8 1 8). lia.
  - apply (grid_setup_needs_two_points 0%float 1%float 1 (-5) 2). lia.
  - apply (grid_setup_needs_two_points 0%float 1%float 8 (-5) 1). lia.
Defined.

(** ** The closed-form fields on the grid *)

Lemma eval_E_ana_values_witness :
  ∃ l' A,
    eval_E_ana (λ t x y z, x + y)%Qc (λ t x y z, z)%Qc (λ t x y z, t)%Qc
      (λ _, 1%Qc) 0%Qc ([0; 1], [1], [2; 1])%Qc (2, 1, 2) ∅
    = (inr l', <[l' := A]> ∅)
    ∧ get A (0, 1, 0, 1) = Some 2%Qc.
Proof.
  destruct (eval_E_ana_values (λ t x y z, x + y)%Qc (λ t x y z, z)%Qc
              (λ t x y z, t)%Qc (λ _, 1%Qc) 0%Qc [0; 1]%Qc [1]%Qc [2; 1]%Qc
              2 1 2 ∅) as [(l' & A & Hrun & _ & _ & Hv) _];
    [simpl; lia..|].
  exists l', A. split; [exact Hrun|].
  destruct (Hv 1%nat 0%nat 1%nat 1%Qc 1%Qc 1%Qc) as [H0 _]; [lia|lia|lia|done..|].
  exact H0.
Defined.

Lemma eval_B_ana_values_witness :
  ∃ l' A,
    eval_B_ana (λ t x y z, x + y)%Qc (λ t x y z, t)%Qc
      (λ _, 1%Qc) 0%Qc ([0; 1], [1], [2; 1])%Qc (2, 1, 2) ∅
    = (inr l', <[l' := A]> ∅)
    ∧ get A (1, 1, 0, 1) = Some 0%Qc.
Proof.
  destruct (eval_B_ana_values (λ t x y z, x + y)%Qc
              (λ t x y z, t)%Qc (λ _, 1%Qc) 0%Qc [0; 1]%Qc [1]%Qc [2; 1]%Qc
              2 1 2 ∅) as [(l' & A & Hrun & _ & _ & Hv) _];
    [simpl; lia..|].
  exists l', A. split; [exact Hrun|].
  destruct (Hv 1%nat 0%nat 1%nat 1%Qc 1%Qc 1%Qc) as (_ & H1 & _); [lia|lia|lia|done..|].
  exact H1.
Defined.

(** ** The whole run *)

Lemma simulation_runs_witness :
  ∃ lE0 lB0 lE lB σ',
    simulation (λ t x y z, x + y + z)%float (λ t x y z, - (x + y + z))%float
      (λ t x y z, z)%float (λ t x y z, x)%float (λ t x y z, - x)%float
      (λ _, nan) 0.5%float 2 (2, 2, 2) 0%float 1%float ∅
    = (inr (lE0, lB0, (lE, lB)), σ').
Proof.
  destruct (simulation_runs (λ t x y z, x + y + z)%float
              (λ t x y z, - (x + y + z))%float
              (λ t x y z, z)%float (λ t x y z, x)%float (λ t x y z, - x)%float
              (λ _, nan) 0.5%float 0%float 1%float 2 2 2 2 ∅)
    as (Omega & h & lE0 & lB0 & lE & lB & σ' & E0 & B0 & E' & B' & _ & Hrun & _);
    [lia..|].
  by exists lE0, lB0, lE, lB, σ'.
Defined.
